(** * NeoPatterns: the animation-pattern engine of the SCS E3 NeoPixel sketch

    A shallow embedding of the [NeoPatterns] class, of the three global
    strips, of the completion callback [StripComplete] and of the serial
    command dispatch, followed by the properties of the engine.

    The sketch comes in two variants that share the class; the embedding
    follows the later one, which has the PULSE pattern, one callback for
    the three strips and the commands '0' to '9'.

    Machine integers are [Z] with the wrap-around written out.  The pixel
    memory of a strip is a [list] of cells, updated by index.  The frames
    pushed to the device and the calls of the callback are logged in the
    state, so that statements can speak about them. *)

From Stdlib Require Import ZArith Lia Bool Ascii.
From stdpp Require Import base tactics list.

Local Open Scope Z_scope.

(** ** Machine integers *)

Definition u8 (x : Z) : Z := x mod 256.
Definition u16 (x : Z) : Z := x mod 65536.
Definition u32 (x : Z) : Z := x mod 4294967296.

(** The width of [int] on the board: 16 bits on the AVR boards (Uno, Mega),
    32 bits on the ARM boards (Due, Zero).  It decides how an expression
    over [uint16_t] operands is evaluated. *)
Inductive int_width := Int16 | Int32.

Definition to_signed32 (x : Z) : Z := (x + 2147483648) mod 4294967296 - 2147483648.

(** The value of an arithmetic expression whose operands are [uint16_t],
    [uint8_t] or [int]: where [int] has 16 bits, [uint16_t] is
    [unsigned int] and the expression is computed modulo 2^16; where [int]
    has 32 bits every operand is promoted to [int]. *)
Definition int_arith (iw : int_width) (x : Z) : Z :=
  match iw with
  | Int16 => u16 x
  | Int32 => to_signed32 x
  end.

(** ** Colors *)

(** Modelled from the spec: [Adafruit_NeoPixel::Color(r, g, b)] belongs to
    a library outside the repository.  It packs an RGB triple of [uint8_t]
    in a [uint32_t], so that [Red], [Green] and [Blue] below read the
    triple back. *)
Definition Color (r g b : Z) : Z :=
  Z.lor (Z.lor (Z.shiftl (u8 r) 16) (Z.shiftl (u8 g) 8)) (u8 b).

Definition Red (color : Z) : Z := Z.land (Z.shiftr color 16) 255.
Definition Green (color : Z) : Z := Z.land (Z.shiftr color 8) 255.
Definition Blue (color : Z) : Z := Z.land color 255.

(** One cell of the pixel memory: the red, green and blue bytes. *)
Definition cell : Type := Z * Z * Z.

Definition cell_of (color : Z) : cell := (Red color, Green color, Blue color).

(** ** The data model *)

Inductive pattern :=
  NONE | RAINBOW_CYCLE | THEATER_CHASE | COLOR_WIPE | SCANNER | FADE | PULSE.

Inductive direction := FORWARD | REVERSE.

(** The functions a callback pointer of the sketch can point to. *)
Inductive callback : Set := StripComplete.

Record NeoPatterns := mkNeoPatterns {
  pixels : list cell;          (* pixel memory of the base class *)
  shown : list (list cell);    (* frames pushed by show(), latest first *)
  ActivePattern : pattern;
  Direction : direction;
  Interval : Z;                (* unsigned long *)
  lastUpdate : Z;              (* unsigned long *)
  Color1 : Z;                  (* uint32_t *)
  Color2 : Z;                  (* uint32_t *)
  TotalSteps : Z;              (* uint16_t *)
  Index : Z;                   (* uint16_t *)
  OnComplete : option callback (* None is the NULL pointer *)
}.

Definition set_pixels (v : list cell) (s : NeoPatterns) : NeoPatterns :=
  mkNeoPatterns v (shown s) (ActivePattern s) (Direction s) (Interval s)
    (lastUpdate s) (Color1 s) (Color2 s) (TotalSteps s) (Index s) (OnComplete s).
Definition set_shown (v : list (list cell)) (s : NeoPatterns) : NeoPatterns :=
  mkNeoPatterns (pixels s) v (ActivePattern s) (Direction s) (Interval s)
    (lastUpdate s) (Color1 s) (Color2 s) (TotalSteps s) (Index s) (OnComplete s).
Definition set_ActivePattern (v : pattern) (s : NeoPatterns) : NeoPatterns :=
  mkNeoPatterns (pixels s) (shown s) v (Direction s) (Interval s)
    (lastUpdate s) (Color1 s) (Color2 s) (TotalSteps s) (Index s) (OnComplete s).
Definition set_Direction (v : direction) (s : NeoPatterns) : NeoPatterns :=
  mkNeoPatterns (pixels s) (shown s) (ActivePattern s) v (Interval s)
    (lastUpdate s) (Color1 s) (Color2 s) (TotalSteps s) (Index s) (OnComplete s).
Definition set_Interval (v : Z) (s : NeoPatterns) : NeoPatterns :=
  mkNeoPatterns (pixels s) (shown s) (ActivePattern s) (Direction s) v
    (lastUpdate s) (Color1 s) (Color2 s) (TotalSteps s) (Index s) (OnComplete s).
Definition set_lastUpdate (v : Z) (s : NeoPatterns) : NeoPatterns :=
  mkNeoPatterns (pixels s) (shown s) (ActivePattern s) (Direction s) (Interval s)
    v (Color1 s) (Color2 s) (TotalSteps s) (Index s) (OnComplete s).
Definition set_Color1 (v : Z) (s : NeoPatterns) : NeoPatterns :=
  mkNeoPatterns (pixels s) (shown s) (ActivePattern s) (Direction s) (Interval s)
    (lastUpdate s) v (Color2 s) (TotalSteps s) (Index s) (OnComplete s).
Definition set_Color2 (v : Z) (s : NeoPatterns) : NeoPatterns :=
  mkNeoPatterns (pixels s) (shown s) (ActivePattern s) (Direction s) (Interval s)
    (lastUpdate s) (Color1 s) v (TotalSteps s) (Index s) (OnComplete s).
Definition set_TotalSteps (v : Z) (s : NeoPatterns) : NeoPatterns :=
  mkNeoPatterns (pixels s) (shown s) (ActivePattern s) (Direction s) (Interval s)
    (lastUpdate s) (Color1 s) (Color2 s) v (Index s) (OnComplete s).
Definition set_Index (v : Z) (s : NeoPatterns) : NeoPatterns :=
  mkNeoPatterns (pixels s) (shown s) (ActivePattern s) (Direction s) (Interval s)
    (lastUpdate s) (Color1 s) (Color2 s) (TotalSteps s) v (OnComplete s).
Definition set_OnComplete (v : option callback) (s : NeoPatterns) : NeoPatterns :=
  mkNeoPatterns (pixels s) (shown s) (ActivePattern s) (Direction s) (Interval s)
    (lastUpdate s) (Color1 s) (Color2 s) (TotalSteps s) (Index s) v.

(** ** The pixel buffer (base class [Adafruit_NeoPixel]) *)

(** Modelled from the spec: the base class [Adafruit_NeoPixel] is a library
    outside the repository; section 4.1 gives the contract of its buffer.
    [numPixels] is the number of cells. *)
Definition numPixels (s : NeoPatterns) : Z := Z.of_nat (length (pixels s)).

(** Modelled from the spec: [setPixelColor(n, c)] of the base class stores
    the red, green and blue bytes of the packed color at cell [n] (a
    [uint16_t]) and does nothing when [n] is out of range. *)
Definition setPixelColor (n : Z) (c : Z) (s : NeoPatterns) : NeoPatterns :=
  if u16 n <? numPixels s
  then set_pixels (<[Z.to_nat (u16 n) := cell_of c]> (pixels s)) s
  else s.

(** Modelled from the spec: [getPixelColor(n)] of the base class returns
    the color last stored at cell [n], packed, and 0 out of range. *)
Definition getPixelColor (n : Z) (s : NeoPatterns) : Z :=
  match pixels s !! Z.to_nat (u16 n) with
  | Some (r, g, b) => Color r g b
  | None => 0
  end.

(** Modelled from the spec: [show()] of the base class pushes the whole
    buffer to the device; the frames pushed are logged. *)
Definition show (s : NeoPatterns) : NeoPatterns :=
  set_shown (pixels s :: shown s) s.

(** [for (int i = 0; i < numPixels(); i++) body(i)]: the body of every loop
    of the class leaves the number of cells alone, so the bound is the one
    at entry.  [for_from count i body s] runs [count] iterations from [i]. *)
Fixpoint for_from (count : nat) (i : Z)
    (body : Z -> NeoPatterns -> NeoPatterns) (s : NeoPatterns) : NeoPatterns :=
  match count with
  | O => s
  | S count' => for_from count' (i + 1) body (body i s)
  end.

Definition for_pixels (body : Z -> NeoPatterns -> NeoPatterns)
    (s : NeoPatterns) : NeoPatterns :=
  for_from (length (pixels s)) 0 body s.

(** ** Member functions that touch one strip only *)

Definition Reverse (s : NeoPatterns) : NeoPatterns :=
  match Direction s with
  | FORWARD => set_Index (u16 (TotalSteps s - 1)) (set_Direction REVERSE s)
  | REVERSE => set_Index 0 (set_Direction FORWARD s)
  end.

Definition RainbowCycle (interval : Z) (dir : direction) (s : NeoPatterns) : NeoPatterns :=
  set_Direction dir (set_Index 0 (set_TotalSteps 255
    (set_Interval (u8 interval) (set_ActivePattern RAINBOW_CYCLE s)))).

Definition TheaterChase (color1 color2 interval : Z) (dir : direction)
    (s : NeoPatterns) : NeoPatterns :=
  set_Direction dir (set_Index 0 (set_Color2 (u32 color2) (set_Color1 (u32 color1)
    (set_TotalSteps (u16 (numPixels s))
      (set_Interval (u8 interval) (set_ActivePattern THEATER_CHASE s)))))).

Definition ColorWipe (color interval : Z) (dir : direction) (s : NeoPatterns) : NeoPatterns :=
  set_Direction dir (set_Index 0 (set_Color1 (u32 color)
    (set_TotalSteps (u16 (numPixels s))
      (set_Interval (u8 interval) (set_ActivePattern COLOR_WIPE s))))).

(** [Scanner] does not assign [Direction]. *)
Definition Scanner (color1 interval : Z) (s : NeoPatterns) : NeoPatterns :=
  set_Index 0 (set_Color1 (u32 color1)
    (set_TotalSteps (u16 ((numPixels s - 1) * 2))
      (set_Interval (u8 interval) (set_ActivePattern SCANNER s)))).

Definition Fade (color1 color2 steps interval : Z) (dir : direction)
    (s : NeoPatterns) : NeoPatterns :=
  set_Direction dir (set_Index 0 (set_Color2 (u32 color2) (set_Color1 (u32 color1)
    (set_TotalSteps (u16 steps)
      (set_Interval (u8 interval) (set_ActivePattern FADE s)))))).

Definition Pulse (color1 color2 steps interval : Z) (dir : direction)
    (s : NeoPatterns) : NeoPatterns :=
  set_Direction dir (set_Index 0 (set_Color2 (u32 color2) (set_Color1 (u32 color1)
    (set_TotalSteps (u16 steps)
      (set_Interval (u8 interval) (set_ActivePattern PULSE s)))))).

Definition DimColor (color : Z) : Z :=
  Color (Z.shiftr (Red color) 1) (Z.shiftr (Green color) 1) (Z.shiftr (Blue color) 1).

Definition ColorSet (color : Z) (s : NeoPatterns) : NeoPatterns :=
  show (for_pixels (fun i => setPixelColor i color) s).

Definition Wheel (WheelPos : Z) : Z :=
  let p := u8 (255 - u8 WheelPos) in
  if p <? 85 then Color (255 - p * 3) 0 (p * 3)
  else if p <? 170 then
    let p := u8 (p - 85) in Color 0 (p * 3) (255 - p * 3)
  else
    let p := u8 (p - 170) in Color (p * 3) (255 - p * 3) 0.

(** ** The sketch: three global strips and the calls of the callback *)

Inductive strip_id := S1 | S2 | S3.

Record sketch := mkSketch {
  Strip1 : NeoPatterns;
  Strip2 : NeoPatterns;
  Strip3 : NeoPatterns;
  completed : list strip_id  (* strips whose Increment called OnComplete, latest first *)
}.

Definition get (k : strip_id) (w : sketch) : NeoPatterns :=
  match k with
  | S1 => Strip1 w
  | S2 => Strip2 w
  | S3 => Strip3 w
  end.

Definition put (k : strip_id) (s : NeoPatterns) (w : sketch) : sketch :=
  match k with
  | S1 => mkSketch s (Strip2 w) (Strip3 w) (completed w)
  | S2 => mkSketch (Strip1 w) s (Strip3 w) (completed w)
  | S3 => mkSketch (Strip1 w) (Strip2 w) s (completed w)
  end.

(** A member function called on the global strip [k]. *)
Definition on (k : strip_id) (f : NeoPatterns -> NeoPatterns) (w : sketch) : sketch :=
  put k (f (get k w)) w.

Definition is_PULSE (p : pattern) : bool :=
  match p with
  | PULSE => true
  | _ => false
  end.

(** [StripComplete()]: every strip that runs PULSE is reversed, whichever
    strip completed. *)
Definition StripComplete_body (w : sketch) : sketch :=
  let w := if is_PULSE (ActivePattern (Strip1 w)) then on S1 Reverse w else w in
  let w := if is_PULSE (ActivePattern (Strip2 w)) then on S2 Reverse w else w in
  if is_PULSE (ActivePattern (Strip3 w)) then on S3 Reverse w else w.

Definition run_callback (cb : callback) (w : sketch) : sketch :=
  match cb with
  | StripComplete => StripComplete_body w
  end.

(** [if (OnComplete != NULL) OnComplete();] inside [Increment] of strip [k]. *)
Definition call_OnComplete (k : strip_id) (w : sketch) : sketch :=
  match OnComplete (get k w) with
  | Some cb =>
      run_callback cb
        (mkSketch (Strip1 w) (Strip2 w) (Strip3 w) (k :: completed w))
  | None => w
  end.

Definition Increment (k : strip_id) (w : sketch) : sketch :=
  match Direction (get k w) with
  | FORWARD =>
      let w1 := on k (fun s => set_Index (u16 (Index s + 1)) s) w in
      if TotalSteps (get k w1) <=? Index (get k w1)
      then call_OnComplete k (on k (set_Index 0) w1)
      else w1
  | REVERSE =>
      let w1 := on k (fun s => set_Index (u16 (Index s - 1)) s) w in
      if Index (get k w1) <=? 0
      then call_OnComplete k (on k (fun s => set_Index (u16 (TotalSteps s - 1)) s) w1)
      else w1
  end.

(** ** Frames and the per-pattern updates *)

Section Engine.

Variable iw : int_width.

(** Where [int] has 16 bits, [i * 256] overflows from cell 128 on; the
    product is taken modulo 2^16, as the AVR compiler computes it. *)
Definition rainbow_frame (s : NeoPatterns) : NeoPatterns :=
  for_pixels (fun i s' =>
    setPixelColor i
      (Wheel (Z.land
         (int_arith iw (Z.quot (int_arith iw (i * 256)) (numPixels s') + Index s')) 255))
      s') s.

Definition RainbowCycleUpdate (k : strip_id) (w : sketch) : sketch :=
  Increment k (on k (fun s => show (rainbow_frame s)) w).

Definition theater_frame (s : NeoPatterns) : NeoPatterns :=
  for_pixels (fun i s' =>
    if Z.rem (int_arith iw (i + Index s')) 3 =? 0
    then setPixelColor i (Color1 s') s'
    else setPixelColor i (Color2 s') s') s.

Definition TheaterChaseUpdate (k : strip_id) (w : sketch) : sketch :=
  Increment k (on k (fun s => show (theater_frame s)) w).

Definition ColorWipeUpdate (k : strip_id) (w : sketch) : sketch :=
  Increment k (on k (fun s => show (setPixelColor (Index s) (Color1 s) s)) w).

Definition scanner_frame (s : NeoPatterns) : NeoPatterns :=
  for_pixels (fun i s' =>
    if i =? Index s' then setPixelColor i (Color1 s') s'
    else if i =? int_arith iw (TotalSteps s' - Index s')
    then setPixelColor i (Color1 s') s'
    else setPixelColor i (DimColor (getPixelColor i s')) s') s.

Definition ScannerUpdate (k : strip_id) (w : sketch) : sketch :=
  Increment k (on k (fun s => show (scanner_frame s)) w).

(** One channel of [FadeUpdate]:
    [((c1 * (TotalSteps - Index)) + (c2 * Index)) / TotalSteps] stored in a
    [uint8_t].  A division by 0 is undefined in C; here it yields 0. *)
Definition fade_channel (c1 c2 total index : Z) : Z :=
  u8 (Z.quot
        (int_arith iw
           (int_arith iw (c1 * int_arith iw (total - index))
            + int_arith iw (c2 * index)))
        total).

Definition fade_frame (s : NeoPatterns) : NeoPatterns :=
  let red := fade_channel (Red (Color1 s)) (Red (Color2 s)) (TotalSteps s) (Index s) in
  let green := fade_channel (Green (Color1 s)) (Green (Color2 s)) (TotalSteps s) (Index s) in
  let blue := fade_channel (Blue (Color1 s)) (Blue (Color2 s)) (TotalSteps s) (Index s) in
  ColorSet (Color red green blue) s.

Definition FadeUpdate (k : strip_id) (w : sketch) : sketch :=
  Increment k (on k (fun s => show (fade_frame s)) w).

Definition PulseUpdate (k : strip_id) (w : sketch) : sketch :=
  FadeUpdate k w.

(** [Update()] of strip [k]; [millis] is the reading of the clock during
    the call. *)
Definition Update (k : strip_id) (millis : Z) (w : sketch) : sketch :=
  if Interval (get k w) <? u32 (millis - lastUpdate (get k w)) then
    let w1 := on k (set_lastUpdate millis) w in
    match ActivePattern (get k w1) with
    | RAINBOW_CYCLE => RainbowCycleUpdate k w1
    | THEATER_CHASE => TheaterChaseUpdate k w1
    | COLOR_WIPE => ColorWipeUpdate k w1
    | SCANNER => ScannerUpdate k w1
    | FADE => FadeUpdate k w1
    | PULSE => PulseUpdate k w1
    | NONE => w1
    end
  else w.

(** ** The serial commands and the main loop *)

(** [incoming] is [Some c] when [Serial.available() > 0] and [Serial.read()]
    returns [c]. *)
Definition read_from_serial (incoming : option ascii) (w : sketch) : sketch :=
  match incoming with
  | None => w
  | Some c =>
      if Ascii.eqb c "0" then
        on S3 (fun s => ColorSet (Color 0 0 0) (set_ActivePattern NONE s))
          (on S2 (fun s => ColorSet (Color 0 0 0) (set_ActivePattern NONE s))
            (on S1 (fun s => ColorSet (Color 0 0 0) (set_ActivePattern NONE s)) w))
      else if Ascii.eqb c "1" then
        on S1 (Pulse (Color 0 0 0) (Color 127 127 0) 50 10 FORWARD) w
      else if Ascii.eqb c "2" then
        on S2 (Pulse (Color 0 0 0) (Color 0 127 0) 50 10 FORWARD) w
      else if Ascii.eqb c "3" then
        on S3 (Pulse (Color 0 0 0) (Color 0 0 127) 50 10 FORWARD) w
      else if Ascii.eqb c "4" then
        on S1 (fun s => ColorSet (Color 127 0 0) (set_ActivePattern NONE s)) w
      else if Ascii.eqb c "5" then
        on S2 (fun s => ColorSet (Color 127 0 0) (set_ActivePattern NONE s)) w
      else if Ascii.eqb c "6" then
        on S3 (fun s => ColorSet (Color 127 0 0) (set_ActivePattern NONE s)) w
      else if Ascii.eqb c "7" then
        on S1 (fun s => ColorSet (Color 127 127 0) (set_ActivePattern NONE s)) w
      else if Ascii.eqb c "8" then
        on S2 (fun s => ColorSet (Color 0 127 0) (set_ActivePattern NONE s)) w
      else if Ascii.eqb c "9" then
        on S3 (fun s => ColorSet (Color 0 0 127) (set_ActivePattern NONE s)) w
      else w
  end.

(** One iteration of [loop()]: [t1], [t2], [t3] are the clock readings of
    the three [Update] calls. *)
Definition loop (t1 t2 t3 : Z) (incoming : option ascii) (w : sketch) : sketch :=
  read_from_serial incoming (Update S3 t3 (Update S2 t2 (Update S1 t1 w))).

End Engine.

(** The object declarations: 300 cells per strip, every member zero, the
    callback of each strip pointing to [StripComplete]. *)
Definition fresh_strip (n : nat) (cb : option callback) : NeoPatterns :=
  mkNeoPatterns (replicate n (0, 0, 0)) [] NONE FORWARD 0 0 0 0 0 0 cb.

Definition initial_sketch : sketch :=
  mkSketch (fresh_strip 300 (Some StripComplete))
           (fresh_strip 300 (Some StripComplete))
           (fresh_strip 300 (Some StripComplete)) [].

(** ** Vocabulary of the statements *)

Global Instance strip_id_eq_dec : EqDecision strip_id.
Proof. solve_decision. Defined.

Global Instance pattern_eq_dec : EqDecision pattern.
Proof. solve_decision. Defined.

Global Instance direction_eq_dec : EqDecision direction.
Proof. solve_decision. Defined.

(** What [Increment], [Reverse] and the callback never write: everything
    but [Index] and [Direction]. *)
Definition frozen (s : NeoPatterns) :=
  (pixels s, shown s, ActivePattern s, Interval s, lastUpdate s,
   Color1 s, Color2 s, TotalSteps s, OnComplete s).

(** The frame [Update] computes and shows for a pattern, before the final
    [show(); Increment();] of the per-pattern update. *)
Definition frame_of (iw : int_width) (p : pattern) (s : NeoPatterns) : NeoPatterns :=
  match p with
  | NONE => s
  | RAINBOW_CYCLE => rainbow_frame iw s
  | THEATER_CHASE => theater_frame iw s
  | COLOR_WIPE => setPixelColor (Index s) (Color1 s) s
  | SCANNER => scanner_frame iw s
  | FADE => fade_frame iw s
  | PULSE => fade_frame iw s
  end.

(** [Update] finds the interval elapsed. *)
Definition elapsed (millis : Z) (s : NeoPatterns) : bool :=
  Interval s <? u32 (millis - lastUpdate s).

(** [n] calls of [Update] on strip [k], each made one millisecond after the
    interval of the strip has passed. *)
Fixpoint elapsed_ticks (iw : int_width) (k : strip_id) (n : nat) (w : sketch) : sketch :=
  match n with
  | O => w
  | S n' =>
      let w' := elapsed_ticks iw k n' w in
      Update iw k (u32 (lastUpdate (get k w') + Interval (get k w') + 1)) w'
  end.

(** Iterations of [loop()] during which no byte is available on the serial
    port; each takes the three clock readings of its [Update] calls. *)
Definition idle_loops (iw : int_width) (ts : list (Z * Z * Z)) (w : sketch) : sketch :=
  foldl (fun w' t => loop iw t.1.1 t.1.2 t.2 None w') w ts.

(** The interpolation of [FadeUpdate] as the specification writes it. *)
Definition lerp (c1 c2 total index : Z) : Z :=
  (c1 * (total - index) + c2 * index) / total.

(** The products of [FadeUpdate] fit the arithmetic of the board. *)
Definition fade_fits (iw : int_width) (total : Z) : Prop :=
  match iw with
  | Int16 => 255 * total < 65536
  | Int32 => True
  end.

(** The cycle boundary as [Increment] tests it. *)
Definition at_boundary (s : NeoPatterns) : bool :=
  match Direction s with
  | FORWARD => TotalSteps s <=? u16 (Index s + 1)
  | REVERSE => u16 (Index s - 1) <=? 0
  end.

(** The index [Increment] leaves before it looks at [OnComplete]. *)
Definition next_Index (s : NeoPatterns) : Z :=
  match Direction s with
  | FORWARD => if at_boundary s then 0 else u16 (Index s + 1)
  | REVERSE => if at_boundary s then u16 (TotalSteps s - 1) else u16 (Index s - 1)
  end.

(** What the statements observe of the step counter of strip [k]: its
    direction, its index, and the calls of the callback so far. *)
Definition view (k : strip_id) (w : sketch) : direction * Z * list strip_id :=
  (Direction (get k w), Index (get k w), completed w).

(** A forward ColorWipe of color [c] over the cells [orig], about to paint
    cell [j]: the cells before [j] are painted, the others are as they
    were. *)
Definition wiping (orig : list cell) (c : Z) (j : nat) (s : NeoPatterns) : Prop :=
  ActivePattern s = COLOR_WIPE /\ Direction s = FORWARD /\
  TotalSteps s = Z.of_nat (length orig) /\ Color1 s = c /\
  Index s = Z.of_nat j /\
  pixels s = replicate j (cell_of c) ++ drop j orig.

(** A strip that runs a Pulse of [total] steps with the callback of the
    sketch installed. *)
Definition pulsing (total : Z) (s : NeoPatterns) : Prop :=
  ActivePattern s = PULSE /\ OnComplete s = Some StripComplete /\
  0 <= Interval s < 4294967295 /\ TotalSteps s = total.

(** [s'] is [s] with its cells repainted and the final buffer shown [m]
    times: nothing else differs, and the number of cells is the same. *)
Definition renders (m : nat) (s s' : NeoPatterns) : Prop :=
  s' = set_shown (replicate m (pixels s') ++ shown s) (set_pixels (pixels s') s) /\
  length (pixels s') = length (pixels s).

(** ** Vocabulary of the further properties *)

(** A cell with each channel halved, as [DimColor] leaves it. *)
Definition dim_cell (x : cell) : cell :=
  (u8 x.1.1 / 2, u8 x.1.2 / 2, u8 x.2 / 2).

(** The products of [RainbowCycleUpdate] fit the arithmetic of the board:
    [i * 256] stays below 2^16 where [int] has 16 bits. *)
Definition rainbow_fits (iw : int_width) (cells : Z) : Prop :=
  match iw with
  | Int16 => cells <= 256
  | Int32 => cells < 65536
  end.

(** A step counter from which [Increment] stays in the range: inside
    [0, TotalSteps), and not at 0 when the strip runs in reverse. *)
Definition steady (s : NeoPatterns) : Prop :=
  2 <= TotalSteps s < 65536 /\ 0 <= Index s < TotalSteps s /\
  (Direction s = REVERSE -> 1 <= Index s).

(** The color of the station of each strip. *)
Definition station_color (k : strip_id) : Z :=
  match k with
  | S1 => Color 127 127 0
  | S2 => Color 0 127 0
  | S3 => Color 0 0 127
  end.

(** Every channel of every cell is at most 127. *)
Definition half_bright (cells : list cell) : Prop :=
  Forall (fun x : cell =>
            (0 <= x.1.1 <= 127 /\ 0 <= x.1.2 <= 127) /\ 0 <= x.2 <= 127) cells.

(** What holds of strip [k] all along a run of the sketch. *)
Definition strip_ok (k : strip_id) (s : NeoPatterns) : Prop :=
  length (pixels s) = 300%nat /\ OnComplete s = Some StripComplete /\
  half_bright (pixels s) /\ Forall half_bright (shown s) /\
  (ActivePattern s = NONE \/
   (ActivePattern s = PULSE /\ Interval s = 10 /\
    Color1 s = 0 /\ Color2 s = station_color k /\
    TotalSteps s = 50 /\ steady s)).

Definition sketch_ok (w : sketch) : Prop :=
  forall k, strip_ok k (get k w).

(** A run of the sketch: iterations of [loop()], each with its three clock
    readings and the byte it finds on the serial port, if any. *)
Definition run (iw : int_width) (its : list (Z * Z * Z * option ascii))
    (w : sketch) : sketch :=
  foldl (fun w' it => loop iw it.1.1.1 it.1.1.2 it.1.2 it.2 w') w its.

(** ** Basic facts *)

Lemma get_put k j s w :
  get j (put k s w) = if decide (j = k) then s else get j w.
Proof. destruct k, j; reflexivity. Qed.

Lemma get_on k j f w :
  get j (on k f w) = if decide (j = k) then f (get k w) else get j w.
Proof. unfold on. apply get_put. Qed.

Lemma get_on_same k f w : get k (on k f w) = f (get k w).
Proof. rewrite get_on. destruct (decide (k = k)); congruence. Qed.

Lemma get_on_other k j f w : j <> k -> get j (on k f w) = get j w.
Proof. intros. rewrite get_on. destruct (decide (j = k)); congruence. Qed.

Lemma completed_on k f w : completed (on k f w) = completed w.
Proof. destruct k; reflexivity. Qed.

Lemma on_on k f g w : on k f (on k g w) = on k (fun s => f (g s)) w.
Proof. destruct k; reflexivity. Qed.

Lemma frozen_Reverse s : frozen (Reverse s) = frozen s.
Proof. unfold Reverse. destruct (Direction s); reflexivity. Qed.

Lemma get_StripComplete_body j w :
  get j (StripComplete_body w) =
  if is_PULSE (ActivePattern (get j w)) then Reverse (get j w) else get j w.
Proof.
  destruct w as [a b c l]. unfold StripComplete_body. simpl.
  destruct (is_PULSE (ActivePattern a)) eqn:Ha; simpl;
    destruct (is_PULSE (ActivePattern b)) eqn:Hb; simpl;
    destruct (is_PULSE (ActivePattern c)) eqn:Hc; simpl;
    destruct j; simpl; rewrite ?Ha, ?Hb, ?Hc; reflexivity.
Qed.

Lemma completed_StripComplete_body w :
  completed (StripComplete_body w) = completed w.
Proof.
  destruct w as [a b c l]. unfold StripComplete_body. simpl.
  destruct (is_PULSE (ActivePattern a)); simpl;
    destruct (is_PULSE (ActivePattern b)); simpl;
    destruct (is_PULSE (ActivePattern c)); reflexivity.
Qed.

Lemma frozen_call_OnComplete k j w :
  frozen (get j (call_OnComplete k w)) = frozen (get j w).
Proof.
  unfold call_OnComplete. destruct (OnComplete (get k w)) as [[]|]; [|reflexivity].
  simpl. rewrite get_StripComplete_body.
  replace (get j (mkSketch (Strip1 w) (Strip2 w) (Strip3 w) (k :: completed w)))
    with (get j w) by (destruct j; reflexivity).
  destruct (is_PULSE _); [apply frozen_Reverse | reflexivity].
Qed.

Lemma frozen_on_set_Index k j f w :
  frozen (get j (on k (fun s => set_Index (f s) s) w)) = frozen (get j w).
Proof. rewrite get_on. destruct (decide (j = k)); subst; reflexivity. Qed.

(** [Increment] writes [Index] and [Direction] only, on every strip. *)
Lemma frozen_Increment k j w :
  frozen (get j (Increment k w)) = frozen (get j w).
Proof.
  unfold Increment. destruct (Direction (get k w)).
  - destruct (_ <=? _).
    + rewrite frozen_call_OnComplete.
      rewrite (frozen_on_set_Index k j (fun _ => 0)).
      apply frozen_on_set_Index.
    + apply frozen_on_set_Index.
  - destruct (_ <=? _).
    + rewrite frozen_call_OnComplete.
      rewrite (frozen_on_set_Index k j (fun s => u16 (TotalSteps s - 1))).
      apply frozen_on_set_Index.
    + apply frozen_on_set_Index.
Qed.

Lemma frozen_fields s s' :
  frozen s' = frozen s ->
  pixels s' = pixels s /\ shown s' = shown s /\
  ActivePattern s' = ActivePattern s /\ Interval s' = Interval s /\
  lastUpdate s' = lastUpdate s /\ Color1 s' = Color1 s /\
  Color2 s' = Color2 s /\ TotalSteps s' = TotalSteps s /\
  OnComplete s' = OnComplete s.
Proof. unfold frozen. intros H. injection H. intros. repeat split; assumption. Qed.

(** ** Colors: unpacking a packed color *)

Lemma u8_range x : 0 <= u8 x < 256.
Proof. unfold u8. apply Z.mod_pos_bound. lia. Qed.

Lemma u8_small x : 0 <= x < 256 -> u8 x = x.
Proof. unfold u8. intros. apply Z.mod_small. lia. Qed.

Lemma u16_small x : 0 <= x < 65536 -> u16 x = x.
Proof. unfold u16. intros. apply Z.mod_small. lia. Qed.

Lemma u8_bit_low x n : 0 <= n < 8 -> Z.testbit (u8 x) n = Z.testbit x n.
Proof. intros. unfold u8. change 256 with (2 ^ 8). apply Z.mod_pow2_bits_low. lia. Qed.

Lemma u8_bit_high x n : 8 <= n -> Z.testbit (u8 x) n = false.
Proof. intros. unfold u8. change 256 with (2 ^ 8). apply Z.mod_pow2_bits_high. lia. Qed.

Lemma byte_mask_bit x n :
  0 <= n -> Z.testbit (Z.land x 255) n = Z.testbit x n && (n <? 8).
Proof.
  intros Hn. rewrite Z.land_spec. change 255 with (Z.ones 8).
  destruct (Z.ltb_spec n 8).
  - rewrite Z.ones_spec_low by lia. reflexivity.
  - rewrite Z.ones_spec_high by lia. reflexivity.
Qed.

Lemma channel_range x : 0 <= Z.land x 255 < 256.
Proof.
  change 255 with (Z.ones 8). rewrite Z.land_ones by lia.
  apply Z.mod_pos_bound. lia.
Qed.

Lemma Red_Color r g b : Red (Color r g b) = u8 r.
Proof.
  unfold Red, Color. apply Z.bits_inj'. intros n Hn.
  rewrite byte_mask_bit by lia.
  rewrite Z.shiftr_spec, !Z.lor_spec, !Z.shiftl_spec by lia.
  destruct (Z.ltb_spec n 8).
  - rewrite (u8_bit_high g), (u8_bit_high b) by lia.
    rewrite u8_bit_low by lia.
    replace (n + 16 - 16) with n by lia.
    rewrite u8_bit_low by lia. rewrite !orb_false_r, andb_true_r. reflexivity.
  - rewrite andb_false_r. symmetry. apply u8_bit_high. lia.
Qed.

Lemma Green_Color r g b : Green (Color r g b) = u8 g.
Proof.
  unfold Green, Color. apply Z.bits_inj'. intros n Hn.
  rewrite byte_mask_bit by lia.
  rewrite Z.shiftr_spec, !Z.lor_spec, !Z.shiftl_spec by lia.
  destruct (Z.ltb_spec n 8).
  - rewrite (u8_bit_high b) by lia.
    replace (n + 8 - 16) with (n - 8) by lia.
    rewrite (Z.testbit_neg_r _ (n - 8)) by lia.
    replace (n + 8 - 8) with n by lia.
    rewrite orb_false_r, andb_true_r. reflexivity.
  - rewrite andb_false_r. symmetry. apply u8_bit_high. lia.
Qed.

Lemma Blue_Color r g b : Blue (Color r g b) = u8 b.
Proof.
  unfold Blue, Color. apply Z.bits_inj'. intros n Hn.
  rewrite byte_mask_bit by lia.
  rewrite !Z.lor_spec, !Z.shiftl_spec by lia.
  destruct (Z.ltb_spec n 8).
  - rewrite (Z.testbit_neg_r _ (n - 16)), (Z.testbit_neg_r _ (n - 8)) by lia.
    rewrite andb_true_r. reflexivity.
  - rewrite andb_false_r. symmetry. apply u8_bit_high. lia.
Qed.

Lemma cell_of_Color r g b : cell_of (Color r g b) = (u8 r, u8 g, u8 b).
Proof. unfold cell_of. rewrite Red_Color, Green_Color, Blue_Color. reflexivity. Qed.

(** ** Loops over the cells *)

Lemma renders_refl s : renders 0 s s.
Proof. split; [destruct s; reflexivity | reflexivity]. Qed.

Lemma renders_trans s s' s'' m :
  renders 0 s s' -> renders m s' s'' -> renders m s s''.
Proof.
  intros [E1 L1] [E2 L2]. split; [|congruence].
  destruct s, s', s''. unfold set_shown, set_pixels in *. simpl in *.
  congruence.
Qed.

Lemma renders_setPixelColor n c s : renders 0 s (setPixelColor n c s).
Proof.
  unfold setPixelColor. destruct (_ <? _); [|apply renders_refl].
  split; simpl; [reflexivity | apply length_insert].
Qed.

Lemma renders_show m s s' : renders m s s' -> renders (S m) s (show s').
Proof.
  intros [E L]. split; [|exact L].
  destruct s, s'. unfold show, set_shown, set_pixels in *. simpl in *.
  congruence.
Qed.

Lemma renders_for_from body :
  (forall i s, renders 0 s (body i s)) ->
  forall count i s, renders 0 s (for_from count i body s).
Proof.
  intros Hb count. induction count as [|count IH]; intros i s; simpl.
  - apply renders_refl.
  - eapply renders_trans; [apply Hb | apply IH].
Qed.

Lemma renders_for_pixels body s :
  (forall i s', renders 0 s' (body i s')) -> renders 0 s (for_pixels body s).
Proof. intros. unfold for_pixels. apply renders_for_from. assumption. Qed.

Lemma renders_ColorSet c s : renders 1 s (ColorSet c s).
Proof.
  unfold ColorSet. apply renders_show, renders_for_pixels.
  intros. apply renders_setPixelColor.
Qed.

Lemma for_from_fill c rest : forall done s,
  Z.of_nat (length done + length rest) < 65536 ->
  pixels s = done ++ rest ->
  pixels (for_from (length rest) (Z.of_nat (length done))
            (fun i => setPixelColor i c) s)
  = done ++ replicate (length rest) (cell_of c).
Proof.
  induction rest as [|x rest IH]; intros done s Hlen Hpx; simpl.
  - exact Hpx.
  - simpl in Hlen.
    replace (Z.of_nat (length done) + 1) with (Z.of_nat (length (done ++ [cell_of c])))
      by (rewrite length_app; simpl; lia).
    rewrite IH.
    + rewrite <- app_assoc. reflexivity.
    + rewrite length_app. simpl. lia.
    + unfold setPixelColor, numPixels. rewrite u16_small by lia.
      rewrite Hpx, length_app. simpl length.
      destruct (Z.ltb_spec (Z.of_nat (length done))
                  (Z.of_nat (length done + S (length rest)))); [|lia].
      simpl. rewrite Nat2Z.id.
      rewrite insert_app_r_alt by lia.
      rewrite Nat.sub_diag. simpl. rewrite <- app_assoc. reflexivity.
Qed.

(** [ColorSet] paints every cell. *)
Lemma pixels_ColorSet c s :
  numPixels s < 65536 ->
  pixels (ColorSet c s) = replicate (length (pixels s)) (cell_of c).
Proof.
  unfold numPixels. intros Hn. unfold ColorSet, for_pixels. simpl.
  apply (for_from_fill c (pixels s) [] s); [simpl; lia | reflexivity].
Qed.

(** ** The step counter *)

(** [Increment] writes the next index and, at a boundary, looks at the
    callback. *)
Lemma Increment_next k w :
  Increment k w =
  let w1 := on k (fun s => set_Index (next_Index s) s) w in
  if at_boundary (get k w) then call_OnComplete k w1 else w1.
Proof.
  unfold Increment, at_boundary, next_Index, at_boundary.
  destruct (Direction (get k w)) eqn:D; rewrite get_on_same; simpl.
  - destruct (_ <=? _) eqn:B.
    + rewrite on_on. unfold on. simpl. rewrite D, B. reflexivity.
    + unfold on. simpl. rewrite D, B. reflexivity.
  - destruct (_ <=? _) eqn:B.
    + rewrite on_on. unfold on. simpl. rewrite D, B. reflexivity.
    + unfold on. simpl. rewrite D, B. reflexivity.
Qed.

(** Forward, the next index stays in the range. *)
Lemma next_Index_FORWARD s :
  Direction s = FORWARD -> 0 <= Index s < TotalSteps s -> TotalSteps s < 65536 ->
  next_Index s = (if Index s + 1 =? TotalSteps s then 0 else Index s + 1) /\
  0 <= next_Index s < TotalSteps s.
Proof.
  intros D I T. unfold next_Index, at_boundary. rewrite D.
  rewrite u16_small by lia.
  destruct (Z.leb_spec (TotalSteps s) (Index s + 1));
    destruct (Z.eqb_spec (Index s + 1) (TotalSteps s)); lia.
Qed.

(** In reverse, the reset happens on reaching 0, not below it: from 1 the
    next index is [TotalSteps - 1], and from 0 the counter wraps. *)
Lemma next_Index_REVERSE s :
  Direction s = REVERSE -> 0 <= Index s < 65536 ->
  next_Index s =
    (if Index s =? 1 then u16 (TotalSteps s - 1)
     else if Index s =? 0 then 65535 else Index s - 1).
Proof.
  intros D I. unfold next_Index, at_boundary. rewrite D.
  destruct (Z.eqb_spec (Index s) 1) as [e|ne].
  - rewrite e. reflexivity.
  - destruct (Z.eqb_spec (Index s) 0) as [e0|ne0].
    + rewrite e0. reflexivity.
    + rewrite u16_small by lia.
      destruct (Z.leb_spec (Index s - 1) 0); [lia | reflexivity].
Qed.

(** C9: with a NULL callback, [Increment] writes the same index as with a
    callback installed (the reset at a cycle boundary, the plain step
    elsewhere) and calls nothing; with a callback installed it does that
    same write and then, at a boundary only, calls the callback. *)
Theorem Increment_null_callback (k : strip_id) (cb : callback) (w : sketch) :
  let w0 := on k (set_OnComplete None) w in
  let w1 := on k (set_OnComplete (Some cb)) w in
  Increment k w0 = on k (fun s => set_Index (next_Index s) s) w0 /\
  completed (Increment k w0) = completed w /\
  Increment k w1 =
    (if at_boundary (get k w)
     then call_OnComplete k (on k (set_OnComplete (Some cb)) (Increment k w0))
     else on k (set_OnComplete (Some cb)) (Increment k w0)).
Proof.
  intros w0 w1.
  assert (E0 : Increment k w0 = on k (fun s => set_Index (next_Index s) s) w0).
  { rewrite Increment_next. cbv zeta.
    destruct (at_boundary (get k w0)); [|reflexivity].
    unfold call_OnComplete. subst w0. rewrite !get_on_same. reflexivity. }
  split; [exact E0|]. split.
  - rewrite E0. unfold w0. rewrite !completed_on. reflexivity.
  - rewrite E0, Increment_next. cbv zeta. unfold w0, w1.
    rewrite !get_on_same, !on_on.
    replace (at_boundary (set_OnComplete (Some cb) (get k w)))
      with (at_boundary (get k w)) by reflexivity.
    reflexivity.
Qed.

(** C1: in the reverse branch [Increment] decrements first and then tests
    [Index <= 0] on an unsigned counter.  From [Index = 0] the counter
    wraps to 65535 and no callback runs; from [Index = 1] the counter is
    reset to [TotalSteps - 1] and the callback runs, so step 0 is never
    held. *)
Theorem Increment_reverse_at_zero_and_one :
  let w := on S1 (Fade (Color 0 0 0) (Color 0 0 255) 50 10 REVERSE) initial_sketch in
  (Direction (Strip1 w) = REVERSE /\ TotalSteps (Strip1 w) = 50 /\ Index (Strip1 w) = 0) /\
  (Index (Strip1 (Increment S1 w)) = 65535 /\ completed (Increment S1 w) = []) /\
  (Index (Strip1 (Increment S1 (on S1 (set_Index 1) w))) = 49 /\
   completed (Increment S1 (on S1 (set_Index 1) w)) = [S1]).
Proof. vm_compute. repeat split. Qed.

(** C6: a pattern initialised in the reverse direction starts at
    [Index = 0], inside the range; the first [Increment] leaves
    [Index = 65535], outside [0, TotalSteps). *)
Theorem Index_leaves_range_in_reverse :
  let w := on S1 (Fade (Color 255 0 0) (Color 0 255 0) 100 50 REVERSE) initial_sketch in
  (ActivePattern (Strip1 w) = FADE /\
   0 <= Index (Strip1 w) < TotalSteps (Strip1 w)) /\
  TotalSteps (Strip1 (Increment S1 w)) = 100 /\
  Index (Strip1 (Increment S1 w)) = 65535.
Proof. vm_compute. repeat split; discriminate. Qed.

(** C3: command '1' starts the Pulse of strip 1 with 50 steps.  After 50
    elapsed ticks the strip runs in reverse at [Index = 49]; the reverse leg
    ends one tick early, after 49 more ticks, so that after 100 ticks the
    strip is not at [Index = 0] but at [Index = 1] of the next forward leg.
    The callback has run twice by then. *)
Theorem Pulse_round_trip_is_short :
  let w := read_from_serial (Some "1"%char) initial_sketch in
  (ActivePattern (Strip1 w) = PULSE /\ TotalSteps (Strip1 w) = 50 /\
   view S1 w = (FORWARD, 0, [])) /\
  view S1 (elapsed_ticks Int16 S1 50 w) = (REVERSE, 49, [S1]) /\
  view S1 (elapsed_ticks Int16 S1 99 w) = (FORWARD, 0, [S1; S1]) /\
  view S1 (elapsed_ticks Int16 S1 100 w) = (FORWARD, 1, [S1; S1]).
Proof.
  intros w. split; [|split; [|split]]; vm_compute; repeat split.
Qed.

(** ** Fade and Pulse *)

Lemma to_signed32_small x :
  -2147483648 <= x < 2147483648 -> to_signed32 x = x.
Proof. unfold to_signed32. intros. rewrite Z.mod_small; lia. Qed.

Lemma lerp_range c1 c2 total index :
  0 <= c1 < 256 -> 0 <= c2 < 256 -> 0 < total -> 0 <= index < total ->
  0 <= lerp c1 c2 total index < 256.
Proof.
  intros H1 H2 Ht Hi. unfold lerp. split.
  - apply Z.div_pos; nia.
  - apply Z.div_lt_upper_bound; nia.
Qed.

(** Without overflow the arithmetic of the board computes the
    interpolation of the specification. *)
Lemma fade_channel_lerp iw c1 c2 total index :
  fade_fits iw total ->
  0 <= c1 < 256 -> 0 <= c2 < 256 ->
  0 < total < 65536 -> 0 <= index < total ->
  fade_channel iw c1 c2 total index = lerp c1 c2 total index.
Proof.
  intros Hfit H1 H2 Ht Hi.
  pose proof (lerp_range c1 c2 total index H1 H2 (proj1 Ht) Hi) as Hr.
  unfold fade_channel.
  assert (Hq : Z.quot (c1 * (total - index) + c2 * index) total
               = lerp c1 c2 total index).
  { unfold lerp. apply Z.quot_div_nonneg; nia. }
  destruct iw; simpl in *.
  - rewrite (u16_small (total - index)) by lia.
    rewrite (u16_small (c1 * _)) by nia.
    rewrite (u16_small (c2 * _)) by nia.
    rewrite u16_small by nia.
    rewrite Hq. apply u8_small. exact Hr.
  - rewrite (to_signed32_small (total - index)) by lia.
    rewrite (to_signed32_small (c1 * _)) by nia.
    rewrite (to_signed32_small (c2 * _)) by nia.
    rewrite to_signed32_small by nia.
    rewrite Hq. apply u8_small. exact Hr.
Qed.

Lemma pixels_after_Increment k w :
  pixels (get k (Increment k w)) = pixels (get k w).
Proof. apply (frozen_fields _ _ (frozen_Increment k k w)). Qed.

Lemma shown_after_Increment k w :
  shown (get k (Increment k w)) = shown (get k w).
Proof. apply (frozen_fields _ _ (frozen_Increment k k w)). Qed.

(** Where the products of [FadeUpdate] fit the arithmetic of the board
    (always with a 32-bit [int]; with a 16-bit [int] when
    [255 * TotalSteps < 65536]), one Fade or Pulse update leaves every cell
    of the buffer at the one color whose channels are
    [(c1 * (TotalSteps - Index) + c2 * Index) / TotalSteps]. *)
Theorem FadeUpdate_interpolates (iw : int_width) (k : strip_id) (w : sketch) :
  let s := get k w in
  fade_fits iw (TotalSteps s) ->
  0 < TotalSteps s < 65536 ->
  0 <= Index s < TotalSteps s ->
  numPixels s < 65536 ->
  let color :=
    (lerp (Red (Color1 s)) (Red (Color2 s)) (TotalSteps s) (Index s),
     lerp (Green (Color1 s)) (Green (Color2 s)) (TotalSteps s) (Index s),
     lerp (Blue (Color1 s)) (Blue (Color2 s)) (TotalSteps s) (Index s)) in
  pixels (get k (FadeUpdate iw k w)) = replicate (length (pixels s)) color /\
  pixels (get k (PulseUpdate iw k w)) = replicate (length (pixels s)) color.
Proof.
  intros s Hfit Ht Hi Hn color.
  assert (E : pixels (get k (FadeUpdate iw k w)) = replicate (length (pixels s)) color).
  { unfold FadeUpdate. rewrite pixels_after_Increment, get_on_same.
    fold s. unfold fade_frame. cbv zeta.
    change (pixels (show ?x)) with (pixels x).
    rewrite pixels_ColorSet by exact Hn.
    rewrite cell_of_Color.
    unfold Red, Green, Blue in *.
    rewrite !fade_channel_lerp by (try apply channel_range; assumption).
    rewrite !u8_small by (apply lerp_range; try apply channel_range; lia).
    reflexivity. }
  split; [exact E | exact E].
Qed.

Lemma FadeUpdate_interpolates_witness :
  let w := on S2 (set_Index 25)
             (on S2 (Fade (Color 255 0 0) (Color 0 255 0) 100 50 FORWARD) initial_sketch) in
  pixels (get S2 (FadeUpdate Int16 S2 w)) = replicate 300 (191, 63, 0) /\
  pixels (get S2 (PulseUpdate Int32 S2 w)) = replicate 300 (191, 63, 0).
Proof.
  intros w.
  assert (H16 : fade_fits Int16 (TotalSteps (get S2 w))) by (vm_compute; reflexivity).
  assert (H32 : fade_fits Int32 (TotalSteps (get S2 w))) by exact I.
  assert (Ht : 0 < TotalSteps (get S2 w) < 65536) by (vm_compute; split; reflexivity).
  assert (Hi : 0 <= Index (get S2 w) < TotalSteps (get S2 w))
    by (vm_compute; split; [discriminate | reflexivity]).
  assert (Hn : numPixels (get S2 w) < 65536) by (vm_compute; reflexivity).
  split.
  - rewrite (proj1 (FadeUpdate_interpolates Int16 S2 w H16 Ht Hi Hn)).
    vm_compute. reflexivity.
  - rewrite (proj2 (FadeUpdate_interpolates Int32 S2 w H32 Ht Hi Hn)).
    vm_compute. reflexivity.
Defined.

(** C4: where [int] has 16 bits the products of [FadeUpdate] are computed
    modulo 65536.  With 300 steps [255 * 300] wraps, and a fade that starts
    from white paints (36, 36, 36) at [Index = 0] where the interpolation
    is (255, 255, 255). *)
Lemma FadeUpdate_wraps_on_16_bit_int :
  let w := on S1 (Fade (Color 255 255 255) (Color 0 0 0) 300 10 FORWARD) initial_sketch in
  let s := Strip1 w in
  (0 < TotalSteps s /\ 0 <= Index s < TotalSteps s) /\
  lerp (Red (Color1 s)) (Red (Color2 s)) (TotalSteps s) (Index s) = 255 /\
  pixels (Strip1 (FadeUpdate Int16 S1 w)) = replicate 300 (36, 36, 36) /\
  pixels (Strip1 (FadeUpdate Int16 S1 w)) <>
    replicate (length (pixels s))
      (lerp (Red (Color1 s)) (Red (Color2 s)) (TotalSteps s) (Index s),
       lerp (Green (Color1 s)) (Green (Color2 s)) (TotalSteps s) (Index s),
       lerp (Blue (Color1 s)) (Blue (Color2 s)) (TotalSteps s) (Index s)).
Proof.
  intros w s. split; [|split; [|split]].
  - vm_compute. repeat split; discriminate.
  - vm_compute. reflexivity.
  - vm_compute. reflexivity.
  - intros H. apply (f_equal (fun l => l !! 0%nat)) in H.
    vm_compute in H. discriminate H.
Qed.

(** ** One call of [Update] *)

Lemma renders_fields m s s' :
  renders m s s' ->
  ActivePattern s' = ActivePattern s /\ Direction s' = Direction s /\
  Interval s' = Interval s /\ lastUpdate s' = lastUpdate s /\
  TotalSteps s' = TotalSteps s /\ Index s' = Index s /\
  OnComplete s' = OnComplete s /\
  shown s' = replicate m (pixels s') ++ shown s.
Proof.
  intros [E _]. destruct s, s'. unfold set_shown, set_pixels in E.
  simpl in *. repeat split; congruence.
Qed.

Lemma frame_of_renders iw p s :
  exists m, (m <= 1)%nat /\ renders m s (frame_of iw p s).
Proof.
  destruct p; simpl.
  - exists 0%nat. split; [lia | apply renders_refl].
  - exists 0%nat. split; [lia|]. apply renders_for_pixels.
    intros. apply renders_setPixelColor.
  - exists 0%nat. split; [lia|]. apply renders_for_pixels.
    intros i s'. cbv beta.
    destruct (_ =? _); apply renders_setPixelColor.
  - exists 0%nat. split; [lia | apply renders_setPixelColor].
  - exists 0%nat. split; [lia|]. apply renders_for_pixels.
    intros i s'. cbv beta.
    destruct (i =? Index s'); [apply renders_setPixelColor|].
    destruct (_ =? _); apply renders_setPixelColor.
  - exists 1%nat. split; [lia | apply renders_ColorSet].
  - exists 1%nat. split; [lia | apply renders_ColorSet].
Qed.

Lemma put_on k s f w : put k s (on k f w) = put k s w.
Proof. destruct k; reflexivity. Qed.

Lemma on_as_put k f w : on k f w = put k (f (get k w)) w.
Proof. reflexivity. Qed.

Lemma Update_waiting iw k millis w :
  elapsed millis (get k w) = false -> Update iw k millis w = w.
Proof. unfold Update, elapsed. intros ->. reflexivity. Qed.

Lemma Update_elapsed iw k millis w :
  elapsed millis (get k w) = true ->
  Update iw k millis w =
  match ActivePattern (get k w) with
  | NONE => on k (set_lastUpdate millis) w
  | p => Increment k
           (put k (show (frame_of iw p (set_lastUpdate millis (get k w)))) w)
  end.
Proof.
  unfold Update, elapsed. intros ->. rewrite get_on_same. simpl ActivePattern.
  destruct (ActivePattern (get k w)); try reflexivity;
    unfold RainbowCycleUpdate, TheaterChaseUpdate, ColorWipeUpdate,
      ScannerUpdate, PulseUpdate, FadeUpdate;
    rewrite on_as_put, get_on_same, put_on; reflexivity.
Qed.

Lemma get_call_OnComplete k j w :
  get j (call_OnComplete k w) =
  match OnComplete (get k w) with
  | Some StripComplete =>
      if is_PULSE (ActivePattern (get j w)) then Reverse (get j w) else get j w
  | None => get j w
  end.
Proof.
  unfold call_OnComplete. destruct (OnComplete (get k w)) as [[]|]; [|reflexivity].
  simpl. rewrite get_StripComplete_body. destruct j; reflexivity.
Qed.

Lemma get_put_same k s w : get k (put k s w) = s.
Proof. destruct k; reflexivity. Qed.


Lemma elapsed_true millis s :
  Interval s < u32 (millis - lastUpdate s) -> elapsed millis s = true.
Proof. unfold elapsed. intros. apply Z.ltb_lt. assumption. Qed.


(** An elapsed call on a strip that runs a pattern: one frame, shown once
    or twice, then one [Increment]. *)
Lemma Update_renders iw k millis w :
  elapsed millis (get k w) = true ->
  ActivePattern (get k w) <> NONE ->
  let s := get k w in
  let s1 := frame_of iw (ActivePattern s) (set_lastUpdate millis s) in
  let w' := Update iw k millis w in
  w' = Increment k (put k (show s1) w) /\
  pixels (get k w') = pixels s1 /\
  lastUpdate (get k w') = millis /\
  exists m, (1 <= m <= 2)%nat /\
    shown (get k w') = replicate m (pixels s1) ++ shown s.
Proof.
  intros He Hp s s1 w'.
  assert (E : w' = Increment k (put k (show s1) w)).
  { unfold w', s1, s. rewrite Update_elapsed by exact He.
    destruct (ActivePattern (get k w)); congruence. }
  destruct (frame_of_renders iw (ActivePattern s) (set_lastUpdate millis s))
    as (m & Hm & Hr).
  fold s1 in Hr. apply renders_fields in Hr.
  destruct Hr as (_ & _ & _ & Hl & _ & _ & _ & Hs).
  split; [exact E|]. rewrite E.
  pose proof (frozen_fields _ _ (frozen_Increment k k (put k (show s1) w))) as F.
  rewrite get_put_same in F.
  destruct F as (Fp & Fs & _ & _ & Fl & _).
  split; [exact Fp|]. split; [rewrite Fl; exact Hl|].
  exists (S m). split; [lia|]. rewrite Fs. simpl. rewrite Hs. reflexivity.
Qed.




Lemma next_Index_ext a b :
  Direction a = Direction b -> Index a = Index b -> TotalSteps a = TotalSteps b ->
  next_Index a = next_Index b /\ Index (Reverse a) = Index (Reverse b).
Proof.
  intros D I T. unfold next_Index, at_boundary, Reverse.
  rewrite D, I, T. destruct (Direction b); split; reflexivity.
Qed.



Lemma pixels_setPixelColor_ext n c s s' :
  pixels s = pixels s' ->
  pixels (setPixelColor n c s) = pixels (setPixelColor n c s').
Proof.
  intros E. unfold setPixelColor, numPixels. rewrite E.
  destruct (_ <? _); simpl; congruence.
Qed.

Lemma pixels_for_from_ext c count : forall i s s',
  pixels s = pixels s' ->
  pixels (for_from count i (fun i => setPixelColor i c) s)
  = pixels (for_from count i (fun i => setPixelColor i c) s').
Proof.
  induction count as [|count IH]; intros i s s' E; simpl.
  - exact E.
  - apply IH, pixels_setPixelColor_ext, E.
Qed.

Lemma pixels_ColorSet_ext c s s' :
  pixels s = pixels s' -> pixels (ColorSet c s) = pixels (ColorSet c s').
Proof.
  intros E. unfold ColorSet, for_pixels. simpl. rewrite E.
  apply pixels_for_from_ext, E.
Qed.

Lemma pixels_show s : pixels (show s) = pixels s.
Proof. reflexivity. Qed.

Lemma shown_show s : shown (show s) = pixels s :: shown s.
Proof. reflexivity. Qed.

Lemma shown_fade_frame iw s :
  shown (fade_frame iw s) = pixels (fade_frame iw s) :: shown s.
Proof.
  unfold fade_frame. cbv zeta.
  apply (renders_fields 1 s (ColorSet _ s) (renders_ColorSet _ s)).
Qed.

(** C7: [PulseUpdate] is [FadeUpdate], the frame of PULSE is the frame of
    FADE, and two sketches that differ only in whether strip [k] runs PULSE
    or FADE have the same cells and the same frames shown on strip [k]
    after a call of [Update]. *)
Theorem Pulse_renders_as_Fade (iw : int_width) (k : strip_id) (millis : Z) (w : sketch) :
  PulseUpdate iw k w = FadeUpdate iw k w /\
  (forall s, frame_of iw PULSE s = frame_of iw FADE s) /\
  let wp := on k (set_ActivePattern PULSE) w in
  let wf := on k (set_ActivePattern FADE) w in
  pixels (get k (Update iw k millis wp)) = pixels (get k (Update iw k millis wf)) /\
  shown (get k (Update iw k millis wp)) = shown (get k (Update iw k millis wf)).
Proof.
  split; [reflexivity|]. split; [reflexivity|]. intros wp wf.
  destruct (elapsed millis (get k w)) eqn:He.
  - assert (Hp : elapsed millis (get k wp) = true)
      by (unfold wp; rewrite get_on_same; exact He).
    assert (Hf : elapsed millis (get k wf) = true)
      by (unfold wf; rewrite get_on_same; exact He).
    assert (E : pixels (fade_frame iw (set_lastUpdate millis
                          (set_ActivePattern PULSE (get k w))))
              = pixels (fade_frame iw (set_lastUpdate millis
                          (set_ActivePattern FADE (get k w))))).
    { apply pixels_ColorSet_ext. reflexivity. }
    assert (Up : Update iw k millis wp = Increment k
      (put k (show (fade_frame iw (set_lastUpdate millis
                (set_ActivePattern PULSE (get k w))))) wp)).
    { rewrite Update_elapsed by exact Hp. unfold wp. rewrite get_on_same. reflexivity. }
    assert (Uf : Update iw k millis wf = Increment k
      (put k (show (fade_frame iw (set_lastUpdate millis
                (set_ActivePattern FADE (get k w))))) wf)).
    { rewrite Update_elapsed by exact Hf. unfold wf. rewrite get_on_same. reflexivity. }
    rewrite Up, Uf, !pixels_after_Increment, !shown_after_Increment, !get_put_same.
    rewrite !pixels_show, !shown_show, !shown_fade_frame, E. split; reflexivity.
  - rewrite !Update_waiting.
    + unfold wp, wf. rewrite !get_on_same. split; reflexivity.
    + unfold wf. rewrite get_on_same. exact He.
    + unfold wp. rewrite get_on_same. exact He.
Qed.

(** ** ColorWipe *)

Lemma get_Increment_not_PULSE k w :
  is_PULSE (ActivePattern (get k w)) = false ->
  get k (Increment k w) = set_Index (next_Index (get k w)) (get k w).
Proof.
  intros H. rewrite Increment_next. cbv zeta.
  destruct (at_boundary (get k w)).
  - rewrite get_call_OnComplete, !get_on_same. simpl. rewrite H.
    destruct (OnComplete (get k w)) as [[]|]; reflexivity.
  - rewrite get_on_same. reflexivity.
Qed.

Lemma setPixelColor_in_range n c s :
  0 <= n < numPixels s -> numPixels s < 65536 ->
  setPixelColor n c s = set_pixels (<[Z.to_nat n := cell_of c]> (pixels s)) s.
Proof.
  intros Hn Hs. unfold setPixelColor. rewrite u16_small by lia.
  destruct (Z.ltb_spec n (numPixels s)); [reflexivity | lia].
Qed.

Lemma wiping_length orig c j s :
  (j <= length orig)%nat -> wiping orig c j s -> length (pixels s) = length orig.
Proof.
  intros Hj (_ & _ & _ & _ & _ & Hp).
  rewrite Hp, length_app, length_replicate, length_drop. lia.
Qed.

(** One update of a ColorWipe paints the cell at [Index] and no other. *)
Lemma ColorWipeUpdate_step k x orig c j :
  (j < length orig)%nat ->
  Z.of_nat (length orig) < 65536 ->
  wiping orig c j (get k x) ->
  let s' := get k (ColorWipeUpdate k x) in
  pixels s' = <[j := cell_of c]> (pixels (get k x)) /\
  pixels s' = replicate (S j) (cell_of c) ++ drop (S j) orig /\
  (if decide (S j = length orig) then Index s' = 0 else wiping orig c (S j) s').
Proof.
  intros Hj Hn W s'.
  pose proof (wiping_length orig c j (get k x) ltac:(lia) W) as HL.
  destruct W as (HA & HD & HT & HC & HI & HP).
  assert (E : s' = set_Index
                (if decide (S j = length orig) then 0 else Z.of_nat (S j))
                (show (set_pixels (<[j := cell_of c]> (pixels (get k x))) (get k x)))).
  { unfold s', ColorWipeUpdate.
    rewrite get_Increment_not_PULSE; rewrite get_on_same.
    - rewrite setPixelColor_in_range by (unfold numPixels; lia).
      rewrite HI, HC, Nat2Z.id. f_equal.
      unfold next_Index, at_boundary. simpl. rewrite HD, HT, HI.
      rewrite u16_small by lia.
      destruct (decide (S j = length orig)) as [e|ne];
        destruct (Z.leb_spec (Z.of_nat (length orig)) (Z.of_nat j + 1));
        try reflexivity; lia.
    - rewrite setPixelColor_in_range by (unfold numPixels; lia).
      simpl. rewrite HA. reflexivity. }
  assert (P : <[j := cell_of c]> (pixels (get k x))
              = replicate (S j) (cell_of c) ++ drop (S j) orig).
  { rewrite HP.
    destruct (lookup_lt_is_Some_2 orig j Hj) as [y Hy].
    rewrite (drop_S orig y j Hy).
    rewrite insert_app_r_alt by (rewrite length_replicate; lia).
    rewrite length_replicate, Nat.sub_diag.
    change (<[0%nat := cell_of c]> (y :: drop (S j) orig))
      with (cell_of c :: drop (S j) orig).
    rewrite replicate_S_end, <- app_assoc. reflexivity. }
  rewrite E. simpl pixels. split; [reflexivity|]. split; [exact P|].
  destruct (decide (S j = length orig)); [reflexivity|].
  unfold wiping. simpl. repeat split; try assumption.
Qed.

Lemma wiping_start k color interval w :
  Z.of_nat (length (pixels (get k w))) < 65536 ->
  wiping (pixels (get k w)) (u32 color) 0
    (get k (on k (ColorWipe color interval FORWARD) w)).
Proof.
  intros Hn. rewrite get_on_same. unfold wiping, ColorWipe, numPixels. simpl.
  repeat split. rewrite u16_small by lia. reflexivity.
Qed.

(** C5: a forward ColorWipe over [n > 0] cells paints, at its tick number
    [j] (from 0), exactly the cell [j] with [Color1]: before that tick
    [Index = j] and the cells below [j] are painted, the others untouched;
    after [n] ticks every cell is [Color1] and [Index] is back at 0. *)
Theorem ColorWipe_full_cycle (k : strip_id) (color interval : Z) (w : sketch) :
  let n := length (pixels (get k w)) in
  0 < Z.of_nat n < 65536 ->
  let start := on k (ColorWipe color interval FORWARD) w in
  let after := fun j => Nat.iter j (ColorWipeUpdate k) start in
  let c := cell_of (Color1 (get k start)) in
  (forall j, (j < n)%nat ->
     Index (get k (after j)) = Z.of_nat j /\
     pixels (get k (after j)) = replicate j c ++ drop j (pixels (get k w)) /\
     pixels (get k (after (S j))) = <[j := c]> (pixels (get k (after j)))) /\
  pixels (get k (after n)) = replicate n c /\
  Index (get k (after n)) = 0.
Proof.
  intros n Hn start after c.
  assert (Hc : c = cell_of (u32 color)).
  { unfold c, start. rewrite get_on_same. reflexivity. }
  assert (W : forall j, (j < n)%nat ->
            wiping (pixels (get k w)) (u32 color) j (get k (after j))).
  { induction j as [|j IH]; intros Hj.
    - apply wiping_start. lia.
    - pose proof (ColorWipeUpdate_step k (after j) (pixels (get k w)) (u32 color) j
                    ltac:(fold n; lia) ltac:(fold n; lia) (IH ltac:(lia)))
        as (_ & _ & H).
      destruct (decide (S j = length (pixels (get k w)))); [fold n in e; lia|].
      exact H. }
  split.
  - intros j Hj. pose proof (W j Hj) as Wj.
    pose proof (ColorWipeUpdate_step k (after j) (pixels (get k w)) (u32 color) j
                  ltac:(fold n; lia) ltac:(fold n; lia) Wj) as (H1 & _ & _).
    destruct Wj as (_ & _ & _ & _ & HI & HP).
    rewrite Hc. split; [exact HI|]. split; [exact HP | exact H1].
  - destruct n as [|m] eqn:En; [lia|].
    pose proof (ColorWipeUpdate_step k (after m) (pixels (get k w)) (u32 color) m
                  ltac:(lia) ltac:(lia) (W m ltac:(lia))) as (_ & H2 & H3).
    destruct (decide (S m = length (pixels (get k w)))) as [e|ne]; [|lia].
    change (after (S m)) with (ColorWipeUpdate k (after m)).
    split; [|exact H3].
    rewrite H2, Hc, e, drop_all, app_nil_r. reflexivity.
Qed.

Lemma ColorWipe_full_cycle_witness :
  let w := mkSketch (fresh_strip 4 None) (fresh_strip 4 None)
             (fresh_strip 4 (Some StripComplete)) [] in
  let after := fun j =>
    Nat.iter j (ColorWipeUpdate S3) (on S3 (ColorWipe (Color 0 255 0) 20 FORWARD) w) in
  pixels (get S3 (after 4%nat)) = replicate 4 (0, 255, 0) /\
  Index (get S3 (after 4%nat)) = 0.
Proof.
  intros w after.
  assert (Hn : 0 < Z.of_nat (length (pixels (get S3 w))) < 65536)
    by (vm_compute; split; reflexivity).
  exact (proj2 (ColorWipe_full_cycle S3 (Color 0 255 0) 20 w Hn)).
Defined.

(** ** The commands of strip 1 *)

Lemma Update_cases iw k millis w :
  Update iw k millis w = w \/
  (ActivePattern (get k w) = NONE /\
   Update iw k millis w = on k (set_lastUpdate millis) w) \/
  (ActivePattern (get k w) <> NONE /\
   Update iw k millis w =
   Increment k
     (put k (show (frame_of iw (ActivePattern (get k w))
                     (set_lastUpdate millis (get k w)))) w)).
Proof.
  destruct (elapsed millis (get k w)) eqn:He.
  - right. rewrite Update_elapsed by exact He.
    destruct (ActivePattern (get k w)) eqn:P;
      first [left; split; reflexivity | right; split; [discriminate | reflexivity]].
  - left. apply Update_waiting, He.
Qed.

(** [Update] of any strip leaves the pattern of every strip alone. *)
Lemma ActivePattern_Update iw k j millis w :
  ActivePattern (get j (Update iw k millis w)) = ActivePattern (get j w).
Proof.
  destruct (Update_cases iw k millis w) as [E|[[_ E]|[_ E]]]; rewrite E.
  - reflexivity.
  - rewrite get_on. destruct (decide (j = k)); subst; reflexivity.
  - pose proof (frozen_fields _ _ (frozen_Increment k j
      (put k (show (frame_of iw (ActivePattern (get k w))
                      (set_lastUpdate millis (get k w)))) w))) as F.
    destruct F as (_ & _ & F & _). rewrite F, get_put.
    destruct (decide (j = k)); subst; [|reflexivity].
    destruct (frame_of_renders iw (ActivePattern (get k w))
                (set_lastUpdate millis (get k w))) as (m & _ & Hr).
    apply renders_fields in Hr. destruct Hr as (A & _). exact A.
Qed.

(** [Update] never changes the number of cells of a strip, and only the
    updated strip can have its cells repainted. *)
Lemma pixels_Update iw k j millis w :
  length (pixels (get j (Update iw k millis w))) = length (pixels (get j w)) /\
  (j <> k \/ ActivePattern (get k w) = NONE ->
   pixels (get j (Update iw k millis w)) = pixels (get j w)).
Proof.
  destruct (Update_cases iw k millis w) as [E|[[_ E]|[P E]]]; rewrite E.
  - split; reflexivity.
  - rewrite get_on. destruct (decide (j = k)); subst; split; reflexivity.
  - pose proof (frozen_fields _ _ (frozen_Increment k j
      (put k (show (frame_of iw (ActivePattern (get k w))
                      (set_lastUpdate millis (get k w)))) w))) as F.
    destruct F as (F & _). rewrite F, get_put.
    destruct (decide (j = k)) as [e|ne]; subst.
    + split; [|intros [?|?]; congruence].
      destruct (frame_of_renders iw (ActivePattern (get k w))
                  (set_lastUpdate millis (get k w))) as (m & _ & _ & L).
      rewrite pixels_show. exact L.
    + split; reflexivity.
Qed.

(** An idle strip 1 keeps its buffer through an iteration of [loop()] that
    reads no byte. *)
Lemma loop_keeps_idle_Strip1 iw t1 t2 t3 w :
  ActivePattern (Strip1 w) = NONE ->
  ActivePattern (Strip1 (loop iw t1 t2 t3 None w)) = NONE /\
  pixels (Strip1 (loop iw t1 t2 t3 None w)) = pixels (Strip1 w).
Proof.
  intros HA. unfold loop, read_from_serial.
  change Strip1 with (get S1).
  split.
  - rewrite !ActivePattern_Update. exact HA.
  - rewrite (proj2 (pixels_Update iw S3 S1 t3 _)) by (left; discriminate).
    rewrite (proj2 (pixels_Update iw S2 S1 t2 _)) by (left; discriminate).
    rewrite (proj2 (pixels_Update iw S1 S1 t1 _)) by (right; exact HA).
    reflexivity.
Qed.

Lemma idle_loops_keep_idle_Strip1 iw ts : forall w,
  ActivePattern (Strip1 w) = NONE ->
  ActivePattern (Strip1 (idle_loops iw ts w)) = NONE /\
  pixels (Strip1 (idle_loops iw ts w)) = pixels (Strip1 w).
Proof.
  induction ts as [|t ts IH]; intros w HA.
  - split; [exact HA | reflexivity].
  - change (idle_loops iw (t :: ts) w)
      with (idle_loops iw ts (loop iw t.1.1 t.1.2 t.2 None w)).
    destruct (loop_keeps_idle_Strip1 iw t.1.1 t.1.2 t.2 w HA) as [A P].
    destruct (IH _ A) as [A' P']. split; [exact A' | congruence].
Qed.

(** The commands '0', '4' and '7' set strip 1 idle and paint it. *)
Lemma loop_paints_Strip1 iw t1 t2 t3 (c : ascii) (color : Z) w :
  read_from_serial (Some c) =
    on S1 (fun s => ColorSet color (set_ActivePattern NONE s)) ->
  numPixels (Strip1 w) < 65536 ->
  ActivePattern (Strip1 (loop iw t1 t2 t3 (Some c) w)) = NONE /\
  pixels (Strip1 (loop iw t1 t2 t3 (Some c) w))
    = replicate (length (pixels (Strip1 w))) (cell_of color).
Proof.
  intros Hc Hn. unfold loop. rewrite Hc.
  change Strip1 with (get S1) in *. rewrite get_on_same.
  assert (L : length (pixels (get S1 (Update iw S3 t3 (Update iw S2 t2 (Update iw S1 t1 w)))))
              = length (pixels (get S1 w))).
  { rewrite (proj1 (pixels_Update iw S3 S1 t3 _)).
    rewrite (proj1 (pixels_Update iw S2 S1 t2 _)).
    apply (proj1 (pixels_Update iw S1 S1 t1 _)). }
  split.
  - rewrite (proj1 (renders_fields 1 _ _ (renders_ColorSet color _))). reflexivity.
  - rewrite pixels_ColorSet.
    + change (pixels (set_ActivePattern NONE ?s)) with (pixels s). rewrite L. reflexivity.
    + unfold numPixels in *.
      change (pixels (set_ActivePattern NONE ?s)) with (pixels s). rewrite L. exact Hn.
Qed.

(** C8: whatever the sketch was doing, once an iteration of [loop()] has
    read '4' and a later one has read '7' (with any number of iterations
    that read nothing in between and afterwards, at any clock readings),
    strip 1 is idle and every cell of it is amber (127, 127, 0). *)
Theorem red_then_amber (iw : int_width) (w : sketch)
    (ta tb : Z * Z * Z) (between afterwards : list (Z * Z * Z)) :
  numPixels (Strip1 w) < 65536 ->
  let w4 := loop iw ta.1.1 ta.1.2 ta.2 (Some "4"%char) w in
  let w7 := loop iw tb.1.1 tb.1.2 tb.2 (Some "7"%char) (idle_loops iw between w4) in
  let w' := idle_loops iw afterwards w7 in
  ActivePattern (Strip1 w') = NONE /\
  pixels (Strip1 w') = replicate (length (pixels (Strip1 w))) (127, 127, 0).
Proof.
  intros Hn w4 w7 w'.
  destruct (loop_paints_Strip1 iw ta.1.1 ta.1.2 ta.2 "4" (Color 127 0 0) w
              eq_refl Hn) as [A4 P4].
  fold w4 in A4, P4.
  destruct (idle_loops_keep_idle_Strip1 iw between w4 A4) as [Ab Pb].
  assert (Lb : length (pixels (Strip1 (idle_loops iw between w4)))
               = length (pixels (Strip1 w))).
  { rewrite Pb, P4. apply length_replicate. }
  destruct (loop_paints_Strip1 iw tb.1.1 tb.1.2 tb.2 "7" (Color 127 127 0)
              (idle_loops iw between w4) eq_refl) as [A7 P7].
  { unfold numPixels in *. rewrite Lb. exact Hn. }
  fold w7 in A7, P7.
  destruct (idle_loops_keep_idle_Strip1 iw afterwards w7 A7) as [Aa Pa].
  fold w' in Aa, Pa. split; [exact Aa|].
  rewrite Pa, P7, Lb, cell_of_Color. reflexivity.
Qed.

Lemma red_then_amber_witness :
  let w := elapsed_ticks Int16 S1 7 (read_from_serial (Some "1"%char) initial_sketch) in
  let w4 := loop Int16 80 80 80 (Some "4"%char) w in
  let w7 := loop Int16 120 120 121 (Some "7"%char)
              (idle_loops Int16 [(91, 91, 91); (102, 102, 103)] w4) in
  let w' := idle_loops Int16 [(140, 140, 140); (155, 155, 155)] w7 in
  ActivePattern (Strip1 w') = NONE /\
  pixels (Strip1 w') = replicate 300 (127, 127, 0).
Proof.
  intros w.
  assert (Hn : numPixels (Strip1 w) < 65536) by (vm_compute; reflexivity).
  assert (Hl : length (pixels (Strip1 w)) = 300%nat) by (vm_compute; reflexivity).
  pose proof (red_then_amber Int16 w (80, 80, 80) (120, 120, 121)
                [(91, 91, 91); (102, 102, 103)]
                [(140, 140, 140); (155, 155, 155)] Hn) as H.
  rewrite Hl in H. exact H.
Defined.

(** ** The legs of a Pulse *)

Lemma elapsed_next s :
  0 <= Interval s < 4294967295 ->
  elapsed (u32 (lastUpdate s + Interval s + 1)) s = true.
Proof.
  intros H. unfold elapsed, u32. rewrite Zminus_mod_idemp_l.
  replace (lastUpdate s + Interval s + 1 - lastUpdate s) with (Interval s + 1) by lia.
  rewrite Z.mod_small by lia. apply Z.ltb_lt. lia.
Qed.

Lemma Reverse_ext a b :
  Direction a = Direction b -> TotalSteps a = TotalSteps b ->
  Direction (Reverse a) = Direction (Reverse b) /\
  Index (Reverse a) = Index (Reverse b).
Proof.
  intros D T. unfold Reverse. rewrite D, T.
  destruct (Direction b); split; reflexivity.
Qed.

Lemma renders_show_fields m s s0 :
  (ActivePattern s0 = ActivePattern s /\ Direction s0 = Direction s /\
   Interval s0 = Interval s /\ lastUpdate s0 = lastUpdate s /\
   TotalSteps s0 = TotalSteps s /\ Index s0 = Index s /\
   OnComplete s0 = OnComplete s /\
   shown s0 = replicate m (pixels s0) ++ shown s) ->
  ActivePattern (show s0) = ActivePattern s /\ Direction (show s0) = Direction s /\
  Interval (show s0) = Interval s /\ TotalSteps (show s0) = TotalSteps s /\
  Index (show s0) = Index s /\ OnComplete (show s0) = OnComplete s.
Proof. intros (A & D & I & _ & T & X & O & _). repeat split; assumption. Qed.

(** The strip a pulsing [Increment] leaves, and the calls it logs. *)
Lemma Increment_PULSE k w :
  ActivePattern (get k w) = PULSE -> OnComplete (get k w) = Some StripComplete ->
  get k (Increment k w) =
    (if at_boundary (get k w)
     then Reverse (set_Index (next_Index (get k w)) (get k w))
     else set_Index (next_Index (get k w)) (get k w)) /\
  completed (Increment k w) =
    (if at_boundary (get k w) then k :: completed w else completed w).
Proof.
  intros HA HO. rewrite Increment_next. cbv zeta.
  destruct (at_boundary (get k w)).
  - split.
    + rewrite get_call_OnComplete, !get_on_same. simpl.
      rewrite HO, HA. reflexivity.
    + unfold call_OnComplete. rewrite get_on_same. simpl. rewrite HO.
      simpl. rewrite completed_StripComplete_body. simpl.
      rewrite completed_on. reflexivity.
  - split; [rewrite get_on_same; reflexivity | apply completed_on].
Qed.

(** One elapsed tick of a pulsing strip moves its step counter as
    [Increment] does, and keeps the rest of the engine. *)
Lemma Pulse_tick iw k w :
  let w' := elapsed_ticks iw k 1 w in
  ActivePattern (get k w) = PULSE -> OnComplete (get k w) = Some StripComplete ->
  0 <= Interval (get k w) < 4294967295 ->
  (ActivePattern (get k w') = PULSE /\ OnComplete (get k w') = Some StripComplete /\
   Interval (get k w') = Interval (get k w) /\
   TotalSteps (get k w') = TotalSteps (get k w)) /\
  view k w' =
    (if at_boundary (get k w)
     then (Direction (Reverse (get k w)), Index (Reverse (get k w)), k :: completed w)
     else (Direction (get k w), next_Index (get k w), completed w)).
Proof.
  intros w' HA HO HI.
  assert (He : elapsed (u32 (lastUpdate (get k w) + Interval (get k w) + 1)) (get k w)
               = true) by (apply elapsed_next; exact HI).
  assert (HN : ActivePattern (get k w) <> NONE) by (rewrite HA; discriminate).
  destruct (Update_renders iw k _ w He HN) as (E & _).
  assert (Ew : w' = Update iw k (u32 (lastUpdate (get k w) + Interval (get k w) + 1)) w)
    by reflexivity.
  rewrite Ew, E. clear Ew E.
  destruct (frame_of_renders iw (ActivePattern (get k w))
              (set_lastUpdate (u32 (lastUpdate (get k w) + Interval (get k w) + 1))
                 (get k w))) as (m & _ & Hr).
  apply renders_fields in Hr.
  apply (renders_show_fields m) in Hr.
  revert Hr.
  generalize (show (frame_of iw (ActivePattern (get k w))
              (set_lastUpdate (u32 (lastUpdate (get k w) + Interval (get k w) + 1))
                 (get k w)))).
  intros s1 (FA & FD & FI & FT & FX & FO).
  simpl in FA, FD, FI, FT, FX, FO.
  pose proof (frozen_fields _ _ (frozen_Increment k k (put k s1 w))) as HZ.
  rewrite get_put_same in HZ.
  destruct HZ as (_ & _ & ZA & ZI & _ & _ & _ & ZT & ZO).
  split; [repeat split; congruence|].
  assert (PA : ActivePattern (get k (put k s1 w)) = PULSE)
    by (rewrite get_put_same; congruence).
  assert (PO : OnComplete (get k (put k s1 w)) = Some StripComplete)
    by (rewrite get_put_same; congruence).
  destruct (Increment_PULSE k (put k s1 w) PA PO) as [G C].
  rewrite get_put_same in G, C.
  destruct (next_Index_ext s1 (get k w) FD FX FT) as [N R].
  assert (B : at_boundary s1 = at_boundary (get k w))
    by (unfold at_boundary; rewrite FD, FX, FT; reflexivity).
  unfold view. rewrite G, C, B.
  replace (completed (put k s1 w)) with (completed w) by (destruct k; reflexivity).
  destruct (at_boundary (get k w)).
  - destruct (Reverse_ext (set_Index (next_Index s1) s1) (get k w) FD FT) as [RD RI].
    rewrite RD, RI. reflexivity.
  - simpl. rewrite FD, N. reflexivity.
Qed.

Lemma elapsed_ticks_S iw k n w :
  elapsed_ticks iw k (S n) w = elapsed_ticks iw k 1 (elapsed_ticks iw k n w).
Proof. reflexivity. Qed.

Lemma elapsed_ticks_add iw k n m w :
  elapsed_ticks iw k (n + m) w = elapsed_ticks iw k m (elapsed_ticks iw k n w).
Proof.
  induction m as [|m IH].
  - rewrite Nat.add_0_r. reflexivity.
  - rewrite Nat.add_succ_r, (elapsed_ticks_S iw k (n + m)), (elapsed_ticks_S iw k m), IH.
    reflexivity.
Qed.

Lemma view_inv k w d i c :
  view k w = (d, i, c) ->
  Direction (get k w) = d /\ Index (get k w) = i /\ completed w = c.
Proof. unfold view. intros H. injection H. auto. Qed.

Lemma pulsing_tick iw k total w :
  pulsing total (get k w) ->
  pulsing total (get k (elapsed_ticks iw k 1 w)) /\
  view k (elapsed_ticks iw k 1 w) =
    (if at_boundary (get k w)
     then (Direction (Reverse (get k w)), Index (Reverse (get k w)), k :: completed w)
     else (Direction (get k w), next_Index (get k w), completed w)).
Proof.
  intros (A & O & I & T).
  destruct (Pulse_tick iw k w A O I) as ((A' & O' & I' & T') & V).
  split; [|exact V]. unfold pulsing. rewrite I', T'. auto.
Qed.

(** The forward leg: [n] ticks after the start the index is [n]. *)
Lemma Pulse_forward_leg iw k total c w :
  2 <= total < 65536 ->
  pulsing total (get k w) -> view k w = (FORWARD, 0, c) ->
  forall n, Z.of_nat n < total ->
    pulsing total (get k (elapsed_ticks iw k n w)) /\
    view k (elapsed_ticks iw k n w) = (FORWARD, Z.of_nat n, c).
Proof.
  intros HT P V. induction n as [|n IH]; intros Hn.
  - split; assumption.
  - destruct IH as [Pn Vn]; [lia|].
    rewrite elapsed_ticks_S.
    destruct (pulsing_tick iw k total _ Pn) as [P' V'].
    split; [exact P'|]. rewrite V'.
    destruct (view_inv _ _ _ _ _ Vn) as (D & I & C).
    destruct Pn as (_ & _ & _ & T).
    unfold next_Index, at_boundary. rewrite D, I, C, T.
    rewrite u16_small by lia.
    destruct (Z.leb_spec total (Z.of_nat n + 1)); [lia|].
    f_equal. f_equal. lia.
Qed.

(** The reverse leg: [m] ticks after the turn the index is
    [total - 1 - m], as long as that is at least 1. *)
Lemma Pulse_reverse_leg iw k total c w :
  2 <= total < 65536 ->
  pulsing total (get k w) -> view k w = (REVERSE, total - 1, c) ->
  forall m, Z.of_nat m <= total - 2 ->
    pulsing total (get k (elapsed_ticks iw k m w)) /\
    view k (elapsed_ticks iw k m w) = (REVERSE, total - 1 - Z.of_nat m, c).
Proof.
  intros HT P V. induction m as [|m IH]; intros Hm.
  - change (elapsed_ticks iw k 0 w) with w.
    split; [assumption|]. rewrite V. f_equal. f_equal. simpl. lia.
  - destruct IH as [Pm Vm]; [lia|].
    rewrite elapsed_ticks_S.
    destruct (pulsing_tick iw k total _ Pm) as [P' V'].
    split; [exact P'|]. rewrite V'.
    destruct (view_inv _ _ _ _ _ Vm) as (D & I & C).
    unfold next_Index, at_boundary. rewrite D, I, C.
    rewrite u16_small by lia.
    destruct (Z.leb_spec (total - 1 - Z.of_nat m - 1) 0); [lia|].
    f_equal. f_equal. lia.
Qed.

(** What a Pulse does over a round trip: the forward leg takes
    [TotalSteps] ticks and ends in reverse at [TotalSteps - 1]; the reverse
    leg takes [TotalSteps - 1] ticks and ends forward at 0.  The callback
    runs once at the end of each leg. *)
Lemma Pulse_legs iw k (n : nat) c w :
  2 <= Z.of_nat n < 65536 ->
  pulsing (Z.of_nat n) (get k w) -> view k w = (FORWARD, 0, c) ->
  view k (elapsed_ticks iw k n w) = (REVERSE, Z.of_nat n - 1, k :: c) /\
  view k (elapsed_ticks iw k (n + (n - 1)) w) = (FORWARD, 0, k :: k :: c).
Proof.
  intros HT P V.
  destruct n as [|n]; [lia|].
  assert (F : pulsing (Z.of_nat (S n)) (get k (elapsed_ticks iw k (S n) w)) /\
              view k (elapsed_ticks iw k (S n) w)
              = (REVERSE, Z.of_nat (S n) - 1, k :: c)).
  { destruct (Pulse_forward_leg iw k _ c w HT P V n ltac:(lia)) as [Pn Vn].
    rewrite elapsed_ticks_S.
    destruct (pulsing_tick iw k _ _ Pn) as [P' V'].
    split; [exact P'|]. rewrite V'.
    destruct (view_inv _ _ _ _ _ Vn) as (D & I & C).
    destruct Pn as (_ & _ & _ & T).
    unfold at_boundary, Reverse. rewrite D, I, C, T. simpl Direction. simpl Index.
    rewrite u16_small by lia.
    destruct (Z.leb_spec (Z.of_nat (S n)) (Z.of_nat n + 1)); [|lia].
    rewrite u16_small by lia. reflexivity. }
  destruct F as [PF VF]. split; [exact VF|].
  rewrite elapsed_ticks_add.
  replace (S n - 1)%nat with n by lia.
  destruct n as [|m]; [lia|].
  destruct (Pulse_reverse_leg iw k _ (k :: c) _ HT PF VF m ltac:(lia)) as [Pm Vm].
  rewrite elapsed_ticks_S.
  destruct (pulsing_tick iw k _ _ Pm) as [P' V'].
  rewrite V'.
  destruct (view_inv _ _ _ _ _ Vm) as (D & I & C).
  unfold at_boundary, Reverse. rewrite D, I, C. simpl Direction. simpl Index.
  replace (Z.of_nat (S (S m)) - 1 - Z.of_nat m - 1) with 0 by lia.
  reflexivity.
Qed.

Lemma Pulse_legs_witness :
  let w := read_from_serial (Some "1"%char) initial_sketch in
  view S1 (elapsed_ticks Int32 S1 50 w) = (REVERSE, 49, [S1]) /\
  view S1 (elapsed_ticks Int32 S1 (50 + (50 - 1)) w) = (FORWARD, 0, [S1; S1]).
Proof.
  intros w.
  apply (Pulse_legs Int32 S1 50 [] w).
  - lia.
  - vm_compute. repeat split; discriminate.
  - reflexivity.
Defined.

(** * Further properties of the code *)

(** ** Packed colors *)

Lemma u8_bit x n :
  Z.testbit (u8 x) n = Z.testbit x n && (0 <=? n) && (n <? 8).
Proof.
  destruct (Z.leb_spec 0 n); [|rewrite !Z.testbit_neg_r by lia; reflexivity].
  destruct (Z.ltb_spec n 8).
  - rewrite u8_bit_low by lia. rewrite !andb_true_r. reflexivity.
  - rewrite u8_bit_high by lia. rewrite andb_false_r. reflexivity.
Qed.

Lemma packed_byte_bit c k n :
  0 <= k -> 0 <= n ->
  Z.testbit (Z.shiftl (u8 (Z.land (Z.shiftr c k) 255)) k) n
  = Z.testbit c n && (k <=? n) && (n <? k + 8).
Proof.
  intros Hk Hn. rewrite Z.shiftl_spec by lia. rewrite u8_bit.
  destruct (Z.leb_spec k n).
  - rewrite byte_mask_bit, Z.shiftr_spec by lia.
    replace (n - k + k) with n by lia.
    destruct (Z.leb_spec 0 (n - k)); [|lia].
    destruct (Z.ltb_spec (n - k) 8); destruct (Z.ltb_spec n (k + 8)); try lia;
      rewrite ?andb_true_r, ?andb_false_r; reflexivity.
  - rewrite (Z.testbit_neg_r _ (n - k)) by lia.
    rewrite andb_false_r. reflexivity.
Qed.

Lemma Color_repack c :
  Color (Red c) (Green c) (Blue c) = Z.land c 16777215.
Proof.
  unfold Color, Red, Green, Blue. apply Z.bits_inj'. intros n Hn.
  rewrite !Z.lor_spec, !packed_byte_bit, Z.land_spec by lia.
  rewrite u8_bit, byte_mask_bit by lia.
  change 16777215 with (Z.ones 24).
  destruct (Z.ltb_spec n 24);
    [rewrite Z.ones_spec_low by lia | rewrite Z.ones_spec_high by lia];
    destruct (Z.testbit c n); simpl;
    destruct (Z.leb_spec 16 n); destruct (Z.ltb_spec n (16 + 8));
    destruct (Z.leb_spec 8 n); destruct (Z.ltb_spec n (8 + 8));
    destruct (Z.leb_spec 0 n); destruct (Z.ltb_spec n 8);
    simpl; try reflexivity; lia.
Qed.

(** X1: [Red], [Green] and [Blue] read back the bytes [Color] packed; they
    always return a byte; and packing the three channels of a color again
    gives the color without its top byte. *)
Theorem Color_channels_round_trip (r g b c : Z) :
  (Red (Color r g b) = u8 r /\ Green (Color r g b) = u8 g /\
   Blue (Color r g b) = u8 b) /\
  (0 <= Red c < 256 /\ 0 <= Green c < 256 /\ 0 <= Blue c < 256) /\
  Color (Red c) (Green c) (Blue c) = Z.land c 16777215.
Proof.
  split; [|split].
  - split; [apply Red_Color | split; [apply Green_Color | apply Blue_Color]].
  - unfold Red, Green, Blue. repeat split; apply channel_range.
  - apply Color_repack.
Qed.

(** ** DimColor *)

Lemma half_byte x : 0 <= x < 256 -> u8 (Z.shiftr x 1) = x / 2.
Proof.
  intros H. rewrite Z.shiftr_div_pow2 by lia. change (2 ^ 1) with 2.
  apply u8_small. split; [apply Z.div_pos; lia | apply Z.div_lt_upper_bound; lia].
Qed.

Lemma cell_of_DimColor c :
  cell_of (DimColor c) = (Red c / 2, Green c / 2, Blue c / 2).
Proof.
  unfold DimColor. rewrite cell_of_Color.
  rewrite !half_byte by (unfold Red, Green, Blue; apply channel_range).
  reflexivity.
Qed.

Lemma cell_of_iter_DimColor n c :
  cell_of (Nat.iter n DimColor c)
  = (Red c / 2 ^ Z.of_nat n, Green c / 2 ^ Z.of_nat n, Blue c / 2 ^ Z.of_nat n).
Proof.
  induction n as [|n IH].
  - simpl. rewrite !Z.div_1_r. reflexivity.
  - change (Nat.iter (S n) DimColor c) with (DimColor (Nat.iter n DimColor c)).
    rewrite cell_of_DimColor.
    unfold cell_of in IH. injection IH as -> -> ->.
    rewrite Nat2Z.inj_succ, Z.pow_succ_r by lia.
    rewrite !Z.div_div by lia.
    rewrite (Z.mul_comm (2 ^ Z.of_nat n) 2). reflexivity.
Qed.

(** X2: [DimColor] halves each channel, rounding down, and a color dimmed
    eight times or more is black. *)
Theorem DimColor_halves_to_black (c : Z) :
  cell_of (DimColor c) = (Red c / 2, Green c / 2, Blue c / 2) /\
  forall n, (8 <= n)%nat -> cell_of (Nat.iter n DimColor c) = (0, 0, 0).
Proof.
  split; [apply cell_of_DimColor|].
  intros n Hn. rewrite cell_of_iter_DimColor.
  assert (P : 256 <= 2 ^ Z.of_nat n).
  { change 256 with (2 ^ 8). apply Z.pow_le_mono_r; lia. }
  pose proof (channel_range (Z.shiftr c 16)) as HR.
  pose proof (channel_range (Z.shiftr c 8)) as HG.
  pose proof (channel_range c) as HB.
  unfold Red, Green, Blue.
  rewrite !Z.div_small by lia. reflexivity.
Qed.

(** ** The color wheel *)

(** The three channels of [Wheel], band by band. *)
Lemma cell_of_Wheel pos :
  cell_of (Wheel pos) =
  (let p := 255 - u8 pos in
   if p <? 85 then (255 - p * 3, 0, p * 3)
   else if p <? 170 then (0, (p - 85) * 3, 255 - (p - 85) * 3)
   else ((p - 170) * 3, 255 - (p - 170) * 3, 0)).
Proof.
  pose proof (u8_range pos) as H. unfold Wheel. cbv zeta.
  revert H. generalize (u8 pos). intros a H.
  rewrite (u8_small (255 - a)) by lia.
  destruct (Z.ltb_spec (255 - a) 85).
  - rewrite cell_of_Color, !u8_small by lia. reflexivity.
  - destruct (Z.ltb_spec (255 - a) 170).
    + rewrite cell_of_Color, (u8_small (255 - a - 85)) by lia.
      rewrite !u8_small by lia. reflexivity.
    + rewrite cell_of_Color, (u8_small (255 - a - 170)) by lia.
      rewrite !u8_small by lia. reflexivity.
Qed.

(** X3: for every position the three channels of [Wheel] add up to 255
    and at least one of them is 0; [Wheel] only looks at the position
    modulo 256. *)
Theorem Wheel_constant_sum (pos : Z) :
  Red (Wheel pos) + Green (Wheel pos) + Blue (Wheel pos) = 255 /\
  (Red (Wheel pos) = 0 \/ Green (Wheel pos) = 0 \/ Blue (Wheel pos) = 0) /\
  Wheel (pos + 256) = Wheel pos.
Proof.
  pose proof (cell_of_Wheel pos) as E. pose proof (u8_range pos) as H.
  unfold cell_of in E. cbv zeta in E.
  split; [|split].
  - destruct (Z.ltb_spec (255 - u8 pos) 85);
      [|destruct (Z.ltb_spec (255 - u8 pos) 170)];
      injection E as -> -> ->; lia.
  - destruct (Z.ltb_spec (255 - u8 pos) 85);
      [|destruct (Z.ltb_spec (255 - u8 pos) 170)];
      injection E as -> -> ->; auto.
  - unfold Wheel. replace (u8 (pos + 256)) with (u8 pos); [reflexivity|].
    unfold u8. rewrite <- (Z.mod_add pos 1 256) by lia. reflexivity.
Qed.

Lemma u8_succ pos :
  u8 (pos + 1) = (if u8 pos =? 255 then 0 else u8 pos + 1).
Proof.
  pose proof (u8_range pos) as H. unfold u8 in *.
  rewrite <- Zplus_mod_idemp_l.
  destruct (Z.eqb_spec (pos mod 256) 255) as [e|ne].
  - rewrite e. reflexivity.
  - apply Z.mod_small. lia.
Qed.

(** X4: the wheel is continuous all the way round: from one position to
    the next, each channel changes by at most 3, also from 255 back to 0,
    where the color is the same red. *)
Theorem Wheel_continuous (pos : Z) :
  Z.abs (Red (Wheel (pos + 1)) - Red (Wheel pos)) <= 3 /\
  Z.abs (Green (Wheel (pos + 1)) - Green (Wheel pos)) <= 3 /\
  Z.abs (Blue (Wheel (pos + 1)) - Blue (Wheel pos)) <= 3.
Proof.
  pose proof (cell_of_Wheel pos) as E. pose proof (cell_of_Wheel (pos + 1)) as E1.
  pose proof (u8_range pos) as H.
  unfold cell_of in E, E1. cbv zeta in E, E1. rewrite u8_succ in E1.
  destruct (Z.eqb_spec (u8 pos) 255) as [e|ne].
  - rewrite e in E. simpl in E, E1.
    injection E as -> -> ->. injection E1 as -> -> ->. lia.
  - destruct (Z.ltb_spec (255 - u8 pos) 85);
      [|destruct (Z.ltb_spec (255 - u8 pos) 170)];
      (destruct (Z.ltb_spec (255 - (u8 pos + 1)) 85);
        [|destruct (Z.ltb_spec (255 - (u8 pos + 1)) 170)]);
      injection E as -> -> ->; injection E1 as -> -> ->; lia.
Qed.

(** ** Loops that repaint every cell *)

(** A loop whose body repaints the cell it visits, from the index and the
    old cell, maps the buffer. *)
Lemma for_from_imap (g : Z -> cell -> cell) body s0 :
  (forall i s x, renders 0 s0 s -> 0 <= i < 65536 ->
     pixels s !! Z.to_nat i = Some x ->
     body i s = set_pixels (<[Z.to_nat i := g i x]> (pixels s)) s) ->
  forall rest done s,
    renders 0 s0 s -> pixels s = done ++ rest ->
    Z.of_nat (length done + length rest) < 65536 ->
    pixels (for_from (length rest) (Z.of_nat (length done)) body s)
    = done ++ imap (fun i x => g (Z.of_nat (length done + i)) x) rest.
Proof.
  intros Hb. induction rest as [|x rest IH]; intros done s Hr Hp Hn.
  - simpl. rewrite Hp. reflexivity.
  - simpl length in *. simpl for_from.
    assert (Hl : pixels s !! Z.to_nat (Z.of_nat (length done)) = Some x).
    { rewrite Nat2Z.id, Hp. apply list_lookup_middle. reflexivity. }
    assert (Hd : 0 <= Z.of_nat (length done) < 65536) by lia.
    rewrite (Hb (Z.of_nat (length done)) s x Hr Hd Hl). rewrite Nat2Z.id.
    assert (Hi : <[length done := g (Z.of_nat (length done)) x]> (pixels s)
                 = (done ++ [g (Z.of_nat (length done)) x]) ++ rest).
    { rewrite Hp, insert_app_r_alt, Nat.sub_diag by lia.
      rewrite <- app_assoc. reflexivity. }
    replace (Z.of_nat (length done) + 1)
      with (Z.of_nat (length (done ++ [g (Z.of_nat (length done)) x])))
      by (rewrite length_app; simpl; lia).
    rewrite IH.
    + rewrite <- app_assoc. simpl. f_equal.
      rewrite Nat.add_0_r. f_equal.
      apply imap_ext. intros j y _. simpl.
      rewrite length_app. simpl. do 2 f_equal. lia.
    + eapply renders_trans; [exact Hr|].
      split; simpl; [reflexivity | apply length_insert].
    + exact Hi.
    + rewrite length_app. simpl. lia.
Qed.

Lemma for_pixels_imap (g : Z -> cell -> cell) body s0 :
  (forall i s x, renders 0 s0 s -> 0 <= i < 65536 ->
     pixels s !! Z.to_nat i = Some x ->
     body i s = set_pixels (<[Z.to_nat i := g i x]> (pixels s)) s) ->
  numPixels s0 < 65536 ->
  pixels (for_pixels body s0) = imap (fun i x => g (Z.of_nat i) x) (pixels s0).
Proof.
  intros Hb Hn. unfold for_pixels.
  apply (for_from_imap g body s0 Hb (pixels s0) [] s0);
    [apply renders_refl | reflexivity | exact Hn].
Qed.

Lemma setPixelColor_at i c s x :
  0 <= i < 65536 -> pixels s !! Z.to_nat i = Some x ->
  setPixelColor i c s = set_pixels (<[Z.to_nat i := cell_of c]> (pixels s)) s.
Proof.
  intros Hi Hl. apply lookup_lt_Some in Hl.
  unfold setPixelColor, numPixels. rewrite u16_small by lia.
  destruct (Z.ltb_spec i (Z.of_nat (length (pixels s)))); [reflexivity | lia].
Qed.

Lemma int_arith_small iw x : 0 <= x < 65536 -> int_arith iw x = x.
Proof.
  intros H. destruct iw; simpl; [apply u16_small | apply to_signed32_small]; lia.
Qed.

Lemma renders_colors m s s' :
  renders m s s' -> Color1 s' = Color1 s /\ Color2 s' = Color2 s.
Proof.
  intros [E _]. destruct s, s'. unfold set_shown, set_pixels in E.
  simpl in *. split; congruence.
Qed.

(** X6: one update of a TheaterChase paints the cell [i] with [Color1] when
    [i + Index] is a multiple of 3 and with [Color2] otherwise, provided the
    sums [i + Index] fit 16 bits. *)
Theorem TheaterChaseUpdate_marquee (iw : int_width) (k : strip_id) (w : sketch) :
  let s := get k w in
  numPixels s < 65536 ->
  0 <= Index s -> numPixels s + Index s <= 65536 ->
  pixels (get k (TheaterChaseUpdate iw k w))
  = imap (fun i _ =>
            cell_of (if (Z.of_nat i + Index s) mod 3 =? 0
                     then Color1 s else Color2 s)) (pixels s).
Proof.
  intros s Hc HI Hn. unfold TheaterChaseUpdate.
  rewrite pixels_after_Increment, get_on_same, pixels_show. fold s.
  unfold theater_frame.
  apply (for_pixels_imap
           (fun i _ => cell_of (if (i + Index s) mod 3 =? 0
                                then Color1 s else Color2 s))).
  - intros i s' x Hr Hi Hl. cbv beta.
    pose proof (renders_fields _ _ _ Hr) as (_ & _ & _ & _ & _ & FI & _).
    pose proof (renders_colors _ _ _ Hr) as (F1 & F2).
    destruct Hr as [_ HL].
    pose proof (lookup_lt_Some _ _ _ Hl) as Hlt. rewrite HL in Hlt.
    apply Nat2Z.inj_lt in Hlt. rewrite Z2Nat.id in Hlt by lia.
    unfold numPixels in Hn.
    rewrite FI, F1, F2.
    rewrite int_arith_small by lia.
    rewrite Z.rem_mod_nonneg by lia.
    destruct (_ =? 0); apply (setPixelColor_at i _ s' x Hi Hl).
  - exact Hc.
Qed.

Lemma TheaterChaseUpdate_marquee_witness :
  let w := on S1 (set_Index 4)
             (on S1 (TheaterChase (Color 255 0 0) (Color 0 255 0) 30 FORWARD)
                initial_sketch) in
  pixels (get S1 (TheaterChaseUpdate Int16 S1 w)) !! 2%nat = Some (255, 0, 0) /\
  pixels (get S1 (TheaterChaseUpdate Int16 S1 w)) !! 3%nat = Some (0, 255, 0).
Proof.
  intros w.
  assert (HI : 0 <= Index (get S1 w)) by (vm_compute; discriminate).
  assert (Hn : numPixels (get S1 w) + Index (get S1 w) <= 65536)
    by (vm_compute; discriminate).
  assert (Hc : numPixels (get S1 w) < 65536) by (vm_compute; reflexivity).
  rewrite (TheaterChaseUpdate_marquee Int16 S1 w Hc HI Hn).
  split; vm_compute; reflexivity.
Defined.

Lemma Wheel_u8 a b : u8 a = u8 b -> Wheel a = Wheel b.
Proof. unfold Wheel. intros ->. reflexivity. Qed.

Lemma u8_low_byte y : u8 (Z.land y 255) = u8 y.
Proof.
  change 255 with (Z.ones 8). rewrite Z.land_ones by lia.
  unfold u8. change (2 ^ 8) with 256. apply Zmod_mod.
Qed.

Lemma u8_int_arith iw z : 0 <= z < 2147483648 -> u8 (int_arith iw z) = u8 z.
Proof.
  intros H. destruct iw; simpl.
  - unfold u8, u16. apply Z.mod_mod_divide. exists 256. reflexivity.
  - rewrite to_signed32_small by lia. reflexivity.
Qed.

(** X5: one update of a RainbowCycle paints the cell [i] of [n] with the
    wheel color at [i * 256 / n + Index], provided [i * 256] fits the
    arithmetic of the board. *)
Theorem RainbowCycleUpdate_hues (iw : int_width) (k : strip_id) (w : sketch) :
  let s := get k w in
  numPixels s < 65536 -> rainbow_fits iw (numPixels s) ->
  0 <= Index s < 65536 ->
  pixels (get k (RainbowCycleUpdate iw k w))
  = imap (fun i _ =>
            cell_of (Wheel (Z.of_nat i * 256 / numPixels s + Index s)))
      (pixels s).
Proof.
  intros s Hc Hfit HI. unfold RainbowCycleUpdate.
  rewrite pixels_after_Increment, get_on_same, pixels_show. fold s.
  unfold rainbow_frame.
  apply (for_pixels_imap
           (fun i _ => cell_of (Wheel (i * 256 / numPixels s + Index s)))).
  - intros i s' x Hr Hi Hl. cbv beta.
    pose proof (renders_fields _ _ _ Hr) as (_ & _ & _ & _ & _ & FI & _).
    destruct Hr as [_ HL].
    pose proof (lookup_lt_Some _ _ _ Hl) as Hlt. rewrite HL in Hlt.
    apply Nat2Z.inj_lt in Hlt. rewrite Z2Nat.id in Hlt by lia.
    assert (Hn : numPixels s' = numPixels s) by (unfold numPixels; congruence).
    fold (numPixels s) in Hlt.
    rewrite (setPixelColor_at i _ s' x Hi Hl). rewrite FI, Hn.
    do 3 f_equal. apply Wheel_u8.
    assert (Hq : 0 <= i * 256 / numPixels s <= 256).
    { split; [apply Z.div_pos; lia|].
      apply Z.div_le_upper_bound; nia. }
    assert (Hm : int_arith iw (i * 256) = i * 256).
    { destruct iw; simpl in *; [apply u16_small | apply to_signed32_small]; lia. }
    rewrite u8_low_byte, Hm, Z.quot_div_nonneg by lia.
    apply u8_int_arith. lia.
  - exact Hc.
Qed.

Lemma RainbowCycleUpdate_hues_witness :
  let w := mkSketch (set_Index 10 (RainbowCycle 5 FORWARD (fresh_strip 8 None)))
             (fresh_strip 8 None) (fresh_strip 8 None) [] in
  pixels (get S1 (RainbowCycleUpdate Int16 S1 w)) !! 4%nat
  = Some (cell_of (Wheel 138)).
Proof.
  intros w.
  assert (Hc : numPixels (get S1 w) < 65536) by (vm_compute; reflexivity).
  assert (Hf : rainbow_fits Int16 (numPixels (get S1 w))) by (vm_compute; discriminate).
  assert (HI : 0 <= Index (get S1 w) < 65536)
    by (vm_compute; split; [discriminate | reflexivity]).
  rewrite (RainbowCycleUpdate_hues Int16 S1 w Hc Hf HI).
  vm_compute. reflexivity.
Defined.

(** X7: one update of a Scanner over [n] cells with
    [TotalSteps = (n - 1) * 2] lights exactly one cell with [Color1]: the
    cell [Index] on the way out and the cell [TotalSteps - Index] on the way
    back; every other cell is left with its channels halved. *)
Theorem ScannerUpdate_bounces (iw : int_width) (k : strip_id) (w : sketch) :
  let s := get k w in
  let n := numPixels s in
  1 <= n <= 32768 ->
  TotalSteps s = (n - 1) * 2 ->
  0 <= Index s <= TotalSteps s ->
  let head := if Index s <=? n - 1 then Index s else TotalSteps s - Index s in
  pixels (get k (ScannerUpdate iw k w))
  = imap (fun i x => if Z.of_nat i =? head then cell_of (Color1 s) else dim_cell x)
      (pixels s).
Proof.
  intros s n Hn HT HI head. unfold ScannerUpdate.
  rewrite pixels_after_Increment, get_on_same, pixels_show. fold s.
  unfold scanner_frame.
  apply (for_pixels_imap
           (fun i x => if i =? head then cell_of (Color1 s) else dim_cell x)).
  - intros i s' x Hr Hi Hl. cbv beta.
    pose proof (renders_fields _ _ _ Hr) as (_ & _ & _ & _ & FT & FI & _).
    pose proof (renders_colors _ _ _ Hr) as (F1 & _).
    destruct Hr as [_ HL].
    pose proof (lookup_lt_Some _ _ _ Hl) as Hlt. rewrite HL in Hlt.
    apply Nat2Z.inj_lt in Hlt. rewrite Z2Nat.id in Hlt by lia.
    fold (numPixels s) in Hlt. fold n in Hlt.
    assert (Hd : setPixelColor i (DimColor (getPixelColor i s')) s'
                 = set_pixels (<[Z.to_nat i := dim_cell x]> (pixels s')) s').
    { assert (E : cell_of (DimColor (getPixelColor i s')) = dim_cell x).
      { unfold getPixelColor. rewrite u16_small by lia.
        unfold cell in *. rewrite Hl.
        destruct x as [[r g] b].
        rewrite cell_of_DimColor, Red_Color, Green_Color, Blue_Color. reflexivity. }
      rewrite (setPixelColor_at i _ s' x Hi Hl), E. reflexivity. }
    pose proof (setPixelColor_at i (Color1 s) s' x Hi Hl) as Hh.
    rewrite FI, FT, F1.
    rewrite (int_arith_small iw (TotalSteps s - Index s)) by lia.
    unfold head.
    destruct (Z.eqb_spec i (Index s)); destruct (Z.eqb_spec i (TotalSteps s - Index s));
      destruct (Z.leb_spec (Index s) (n - 1));
      try (destruct (Z.eqb_spec i (Index s)); [|lia]);
      try (destruct (Z.eqb_spec i (TotalSteps s - Index s)); [|lia]);
      try (destruct (Z.eqb_spec i (Index s)); [lia|]);
      try (destruct (Z.eqb_spec i (TotalSteps s - Index s)); [lia|]);
      first [exact Hh | exact Hd | lia].
  - unfold n in Hn. lia.
Qed.

Lemma ScannerUpdate_bounces_witness :
  let s0 := set_pixels (replicate 5 (200, 101, 7)) (fresh_strip 5 None) in
  let w := mkSketch (set_Index 6 (Scanner (Color 255 0 0) 2 s0))
             (fresh_strip 5 None) (fresh_strip 5 None) [] in
  pixels (get S1 (ScannerUpdate Int16 S1 w))
  = [(100, 50, 3); (100, 50, 3); (255, 0, 0); (100, 50, 3); (100, 50, 3)].
Proof.
  intros s0 w.
  assert (Hn : 1 <= numPixels (get S1 w) <= 32768)
    by (vm_compute; split; discriminate).
  assert (HT : TotalSteps (get S1 w) = (numPixels (get S1 w) - 1) * 2)
    by (vm_compute; reflexivity).
  assert (HI : 0 <= Index (get S1 w) <= TotalSteps (get S1 w))
    by (vm_compute; split; discriminate).
  rewrite (ScannerUpdate_bounces Int16 S1 w Hn HT HI).
  vm_compute. reflexivity.
Defined.

(** ** The step counter across the strips *)

(** Every strip after an [Increment] of strip [k]. *)
Lemma get_Increment k j w :
  get j (Increment k w) =
  (let s := if decide (j = k)
            then set_Index (next_Index (get k w)) (get k w) else get j w in
   if at_boundary (get k w) then
     match OnComplete (get k w) with
     | Some StripComplete =>
         if is_PULSE (ActivePattern s) then Reverse s else s
     | None => s
     end
   else s).
Proof.
  rewrite Increment_next. cbv zeta.
  assert (G : get j (on k (fun s => set_Index (next_Index s) s) w)
              = if decide (j = k)
                then set_Index (next_Index (get k w)) (get k w) else get j w).
  { rewrite get_on. destruct (decide (j = k)); reflexivity. }
  destruct (at_boundary (get k w)).
  - rewrite get_call_OnComplete, get_on_same, G. reflexivity.
  - exact G.
Qed.

(** X9: the callback couples the strips.  When strip [k] completes a cycle
    with the callback installed, every strip that runs PULSE is reversed,
    the others are left alone; away from a cycle boundary, or with a NULL
    callback, [Increment] of strip [k] touches no other strip. *)
Theorem Increment_reverses_every_pulse (k j : strip_id) (w : sketch) :
  j <> k ->
  get j (Increment k w) =
  (if at_boundary (get k w) then
     match OnComplete (get k w) with
     | Some StripComplete =>
         if is_PULSE (ActivePattern (get j w)) then Reverse (get j w) else get j w
     | None => get j w
     end
   else get j w).
Proof.
  intros Hj. rewrite get_Increment. cbv zeta.
  destruct (decide (j = k)); [contradiction | reflexivity].
Qed.

Lemma Increment_reverses_every_pulse_witness :
  let w := on S2 (set_Index 20)
             (read_from_serial (Some "2"%char)
                (on S1 (set_Index 49)
                   (read_from_serial (Some "1"%char) initial_sketch))) in
  view S2 w = (FORWARD, 20, []) /\
  view S2 (Increment S1 w) = (REVERSE, 49, [S1]).
Proof.
  intros w. split; [reflexivity|].
  unfold view. rewrite (Increment_reverses_every_pulse S1 S2 w); [|discriminate].
  vm_compute. reflexivity.
Defined.

Lemma steady_step s : steady s -> steady (set_Index (next_Index s) s).
Proof.
  intros (HT & HI & HR). unfold steady. simpl.
  destruct (Direction s) eqn:D.
  - destruct (next_Index_FORWARD s D HI ltac:(lia)) as [_ H].
    repeat split; try lia. discriminate.
  - specialize (HR eq_refl).
    rewrite (next_Index_REVERSE s D) by lia.
    destruct (Z.eqb_spec (Index s) 1).
    + rewrite u16_small by lia. repeat split; lia.
    + destruct (Z.eqb_spec (Index s) 0); [lia|]. repeat split; lia.
Qed.

Lemma steady_Reverse s :
  2 <= TotalSteps s < 65536 -> steady (Reverse s).
Proof.
  intros HT. unfold steady, Reverse. destruct (Direction s); simpl.
  - rewrite u16_small by lia. repeat split; lia.
  - repeat split; try lia. discriminate.
Qed.

(** From steady step counters, [Increment] leaves steady step counters. *)
Lemma steady_Increment k j w :
  steady (get k w) -> steady (get j w) -> steady (get j (Increment k w)).
Proof.
  intros Hk Hj. rewrite get_Increment. cbv zeta.
  assert (Hs : steady (if decide (j = k)
                        then set_Index (next_Index (get k w)) (get k w)
                        else get j w)).
  { destruct (decide (j = k)); [apply steady_step, Hk | exact Hj]. }
  revert Hs.
  generalize (if decide (j = k)
              then set_Index (next_Index (get k w)) (get k w) else get j w).
  intros s Hs.
  destruct (at_boundary (get k w)); [|exact Hs].
  destruct (OnComplete (get k w)) as [[]|]; [|exact Hs].
  destruct (is_PULSE (ActivePattern s)); [|exact Hs].
  apply steady_Reverse. apply Hs.
Qed.

(** X8: [Increment] keeps the step counter of every strip in its range,
    from every state in which the counter is in the range and a strip that
    runs in reverse is not at index 0 (given [2 <= TotalSteps < 65536]);
    it leaves no strip at index 0 in reverse either. *)
Theorem Increment_keeps_steady (k j : strip_id) (w : sketch) :
  steady (get k w) -> steady (get j w) ->
  let s' := get j (Increment k w) in
  0 <= Index s' < TotalSteps s' /\ steady s'.
Proof.
  intros Hk Hj s'. pose proof (steady_Increment k j w Hk Hj) as H.
  split; [apply H | exact H].
Qed.

Lemma Increment_keeps_steady_witness :
  let w := on S1 (set_Index 49) (read_from_serial (Some "1"%char) initial_sketch) in
  steady (get S1 (Increment S1 w)).
Proof.
  intros w.
  assert (H : steady (get S1 w)).
  { vm_compute. repeat split; discriminate. }
  exact (proj2 (Increment_keeps_steady S1 S1 w H H)).
Defined.

(** X18: [Scanner] does not assign [Direction]: the strip keeps the
    direction of the pattern it ran before, and a Scanner started on a
    strip left in reverse goes from index 0 to 65535 at its first
    [Increment]. *)
Theorem Scanner_keeps_Direction (k : strip_id) (color1 interval : Z) (w : sketch) :
  Direction (get k w) = REVERSE ->
  let w' := on k (Scanner color1 interval) w in
  Direction (get k w') = REVERSE /\ Index (get k w') = 0 /\
  Index (get k (Increment k w')) = 65535.
Proof.
  intros D w'.
  assert (D' : Direction (get k w') = REVERSE)
    by (unfold w'; rewrite get_on_same; exact D).
  assert (I' : Index (get k w') = 0)
    by (unfold w'; rewrite get_on_same; reflexivity).
  split; [exact D'|]. split; [exact I'|].
  rewrite get_Increment. cbv zeta.
  destruct (decide (k = k)); [|congruence].
  assert (B : at_boundary (get k w') = false)
    by (unfold at_boundary; rewrite D', I'; reflexivity).
  rewrite B. simpl. unfold next_Index. rewrite B, D', I'. reflexivity.
Qed.

Lemma Scanner_keeps_Direction_witness :
  let w := on S3 Reverse (read_from_serial (Some "3"%char) initial_sketch) in
  Index (get S3 (Increment S3 (on S3 (Scanner (Color 255 0 0) 2) w))) = 65535.
Proof.
  intros w.
  assert (D : Direction (get S3 w) = REVERSE) by reflexivity.
  exact (proj2 (proj2 (Scanner_keeps_Direction S3 (Color 255 0 0) 2 w D))).
Defined.

(** ** The clock and the frame of [Update] *)

Lemma lastUpdate_Update iw k millis w :
  elapsed millis (get k w) = true ->
  lastUpdate (get k (Update iw k millis w)) = millis.
Proof.
  intros He. destruct (decide (ActivePattern (get k w) = NONE)) as [P|P].
  - rewrite Update_elapsed by exact He. rewrite P, get_on_same. reflexivity.
  - apply (Update_renders iw k millis w He P).
Qed.

(** X10: [Update] measures the time since the last update modulo 2^32, so
    it survives the roll-over of the millisecond clock: [d] milliseconds
    after the last update, with the clock reading [lastUpdate + d] wrapped
    to 32 bits, the call is a no-op when [d <= Interval] and stores the
    clock when [d > Interval]. *)
Theorem Update_clock_rollover (iw : int_width) (k : strip_id) (d : Z) (w : sketch) :
  0 <= d < 4294967296 ->
  let s := get k w in
  let now := u32 (lastUpdate s + d) in
  (d <= Interval s -> Update iw k now w = w) /\
  (Interval s < d -> lastUpdate (get k (Update iw k now w)) = now).
Proof.
  intros Hd s now.
  assert (E : elapsed now s = (Interval s <? d)).
  { unfold elapsed, now, u32. rewrite Zminus_mod_idemp_l.
    replace (lastUpdate s + d - lastUpdate s) with d by lia.
    rewrite Z.mod_small by lia. reflexivity. }
  split; intros H.
  - apply Update_waiting. fold s. rewrite E. apply Z.ltb_ge. exact H.
  - apply lastUpdate_Update. fold s. rewrite E. apply Z.ltb_lt. exact H.
Qed.

Lemma Update_clock_rollover_witness :
  let w := on S1 (set_lastUpdate 4294967290)
             (read_from_serial (Some "1"%char) initial_sketch) in
  Update Int16 S1 4 w = w /\
  lastUpdate (get S1 (Update Int16 S1 5 w)) = 5.
Proof.
  intros w. split.
  - apply (proj1 (Update_clock_rollover Int16 S1 10 w ltac:(lia))).
    vm_compute. discriminate.
  - apply (proj2 (Update_clock_rollover Int16 S1 11 w ltac:(lia))).
    vm_compute. reflexivity.
Defined.

Lemma frame_keeps_settings iw p t s :
  let s1 := show (frame_of iw p (set_lastUpdate t s)) in
  (ActivePattern s1 = ActivePattern s /\ Interval s1 = Interval s /\
   Color1 s1 = Color1 s /\ Color2 s1 = Color2 s /\
   TotalSteps s1 = TotalSteps s /\ OnComplete s1 = OnComplete s) /\
  length (pixels s1) = length (pixels s).
Proof.
  intros s1. destruct (frame_of_renders iw p (set_lastUpdate t s)) as (m & _ & Hr).
  pose proof (renders_fields _ _ _ Hr) as (A & _ & I & _ & T & _ & O & _).
  pose proof (renders_colors _ _ _ Hr) as (C1 & C2).
  destruct Hr as [_ L].
  unfold s1. rewrite pixels_show. simpl in *. auto 10.
Qed.

(** X11: a call of [Update], on whichever strip, never changes the
    pattern, the interval, the colors, the number of steps, the callback or
    the number of cells of any strip; and the cells, the frames shown and
    the time of the last update of the strips it was not called on stay as
    they are. *)
Theorem Update_frame (iw : int_width) (k j : strip_id) (millis : Z) (w : sketch) :
  let s := get j w in
  let s' := get j (Update iw k millis w) in
  (ActivePattern s' = ActivePattern s /\ Interval s' = Interval s /\
   Color1 s' = Color1 s /\ Color2 s' = Color2 s /\
   TotalSteps s' = TotalSteps s /\ OnComplete s' = OnComplete s) /\
  length (pixels s') = length (pixels s) /\
  (j <> k ->
   pixels s' = pixels s /\ shown s' = shown s /\ lastUpdate s' = lastUpdate s).
Proof.
  intros s s'. unfold s', s.
  destruct (Update_cases iw k millis w) as [E|[[_ E]|[_ E]]]; rewrite E; clear E.
  - auto 10.
  - rewrite get_on. destruct (decide (j = k)); subst; simpl; auto 10.
    split; [auto 10|]. split; [reflexivity | congruence].
  - pose proof (frozen_fields _ _ (frozen_Increment k j
      (put k (show (frame_of iw (ActivePattern (get k w))
                      (set_lastUpdate millis (get k w)))) w)))
      as (FP & FS & FA & FI & FL & F1 & F2 & FT & FO).
    rewrite FP, FS, FA, FI, FL, F1, F2, FT, FO. rewrite get_put.
    destruct (decide (j = k)) as [e|ne].
    + subst j.
      destruct (frame_keeps_settings iw (ActivePattern (get k w)) millis (get k w))
        as (S & L).
      split; [exact S|]. split; [exact L | congruence].
    + auto 10.
Qed.

Lemma Update_frame_witness :
  let w := read_from_serial (Some "2"%char)
             (read_from_serial (Some "1"%char) initial_sketch) in
  pixels (get S2 (Update Int16 S1 11 w)) = pixels (get S2 w) /\
  shown (get S2 (Update Int16 S1 11 w)) = shown (get S2 w) /\
  lastUpdate (get S2 (Update Int16 S1 11 w)) = lastUpdate (get S2 w).
Proof.
  intros w.
  apply (proj2 (proj2 (Update_frame Int16 S1 S2 11 w))). discriminate.
Defined.

(** ** The serial commands *)

(** X12: a byte that is not one of the digits '0' to '9' is dropped:
    [read_from_serial] changes nothing. *)
Theorem read_from_serial_ignores (c : ascii) (w : sketch) :
  (nat_of_ascii c < 48 \/ 57 < nat_of_ascii c)%nat ->
  read_from_serial (Some c) w = w.
Proof.
  intros H. unfold read_from_serial.
  repeat match goal with
  | |- context [Ascii.eqb c ?d] =>
      destruct (Ascii.eqb_spec c d) as [->|_]; [vm_compute in H; lia|]
  end.
  reflexivity.
Qed.

Lemma read_from_serial_ignores_witness :
  read_from_serial (Some "x"%char) initial_sketch = initial_sketch.
Proof.
  apply (read_from_serial_ignores "x" initial_sketch). right. vm_compute. lia.
Defined.

(** X13: the commands '1' to '9' touch their own strip only ('1', '4', '7'
    strip 1; '2', '5', '8' strip 2; '3', '6', '9' strip 3): the two other
    strips and the log of callback calls are as before. *)
Theorem command_touches_one_strip (c : ascii) (k j : strip_id) (w : sketch) :
  In (c, k)
     [("1"%char, S1); ("4"%char, S1); ("7"%char, S1);
      ("2"%char, S2); ("5"%char, S2); ("8"%char, S2);
      ("3"%char, S3); ("6"%char, S3); ("9"%char, S3)] ->
  j <> k ->
  get j (read_from_serial (Some c) w) = get j w /\
  completed (read_from_serial (Some c) w) = completed w.
Proof.
  intros H Hj. simpl in H.
  repeat (destruct H as [H|H];
          [injection H as <- <-; destruct j; try congruence; split; reflexivity|]).
  contradiction.
Qed.

Lemma command_touches_one_strip_witness :
  let w := elapsed_ticks Int16 S1 7 (read_from_serial (Some "1"%char) initial_sketch) in
  get S1 (read_from_serial (Some "5"%char) w) = get S1 w /\
  completed (read_from_serial (Some "5"%char) w) = completed w.
Proof.
  intros w.
  apply (command_touches_one_strip "5" S2 S1 w); [|discriminate].
  simpl. auto 10.
Defined.

(** An idle strip keeps its buffer through an iteration of [loop()] that
    reads no byte, whichever strip it is. *)
Lemma loop_keeps_idle iw j t1 t2 t3 w :
  ActivePattern (get j w) = NONE ->
  ActivePattern (get j (loop iw t1 t2 t3 None w)) = NONE /\
  pixels (get j (loop iw t1 t2 t3 None w)) = pixels (get j w).
Proof.
  intros HA. unfold loop, read_from_serial. split.
  - rewrite !ActivePattern_Update. exact HA.
  - assert (P : forall k t x, ActivePattern (get j x) = NONE ->
                 pixels (get j (Update iw k t x)) = pixels (get j x)).
    { intros k t x Hx. apply (pixels_Update iw k j t x).
      destruct (decide (j = k)) as [e|ne]; [right; subst; exact Hx | left; exact ne]. }
    rewrite P by (rewrite !ActivePattern_Update; exact HA).
    rewrite P by (rewrite !ActivePattern_Update; exact HA).
    apply P, HA.
Qed.

Lemma idle_loops_keep_idle iw j ts : forall w,
  ActivePattern (get j w) = NONE ->
  ActivePattern (get j (idle_loops iw ts w)) = NONE /\
  pixels (get j (idle_loops iw ts w)) = pixels (get j w).
Proof.
  induction ts as [|t ts IH]; intros w HA.
  - split; [exact HA | reflexivity].
  - change (idle_loops iw (t :: ts) w)
      with (idle_loops iw ts (loop iw t.1.1 t.1.2 t.2 None w)).
    destruct (loop_keeps_idle iw j t.1.1 t.1.2 t.2 w HA) as [A P].
    destruct (IH _ A) as [A' P']. split; [exact A' | congruence].
Qed.

(** X14: command '0' turns the three strips off: each strip is idle with
    every cell black, and stays so through any number of iterations of
    [loop()] that read nothing. *)
Theorem all_off (iw : int_width) (w : sketch) (t : Z * Z * Z)
    (afterwards : list (Z * Z * Z)) (k : strip_id) :
  numPixels (get k w) < 65536 ->
  let w' := idle_loops iw afterwards (loop iw t.1.1 t.1.2 t.2 (Some "0"%char) w) in
  ActivePattern (get k w') = NONE /\
  pixels (get k w') = replicate (length (pixels (get k w))) (0, 0, 0).
Proof.
  intros Hn w'.
  set (u := Update iw S3 t.2 (Update iw S2 t.1.2 (Update iw S1 t.1.1 w))).
  assert (L : length (pixels (get k u)) = length (pixels (get k w))).
  { unfold u.
    rewrite (proj1 (pixels_Update iw S3 k _ _)).
    rewrite (proj1 (pixels_Update iw S2 k _ _)).
    apply (proj1 (pixels_Update iw S1 k _ _)). }
  assert (G : get k (loop iw t.1.1 t.1.2 t.2 (Some "0"%char) w)
              = ColorSet (Color 0 0 0) (set_ActivePattern NONE (get k u))).
  { unfold loop. fold u. destruct k; reflexivity. }
  assert (A : ActivePattern (get k (loop iw t.1.1 t.1.2 t.2 (Some "0"%char) w)) = NONE).
  { rewrite G. rewrite (proj1 (renders_fields 1 _ _ (renders_ColorSet _ _))).
    reflexivity. }
  destruct (idle_loops_keep_idle iw k afterwards _ A) as [A' P'].
  fold w' in A', P'. split; [exact A'|].
  rewrite P', G, pixels_ColorSet.
  - change (pixels (set_ActivePattern NONE ?s)) with (pixels s). rewrite L.
    reflexivity.
  - unfold numPixels in *.
    change (pixels (set_ActivePattern NONE ?s)) with (pixels s). rewrite L. exact Hn.
Qed.

Lemma all_off_witness :
  let w := elapsed_ticks Int16 S2 3 (read_from_serial (Some "2"%char) initial_sketch) in
  let w' := idle_loops Int16 [(60, 60, 60)] (loop Int16 50 50 50 (Some "0"%char) w) in
  ActivePattern (get S2 w') = NONE /\
  pixels (get S2 w') = replicate 300 (0, 0, 0).
Proof.
  intros w.
  assert (Hn : numPixels (get S2 w) < 65536) by (vm_compute; reflexivity).
  assert (Hl : length (pixels (get S2 w)) = 300%nat) by (vm_compute; reflexivity).
  pose proof (all_off Int16 w (50, 50, 50) [(60, 60, 60)] S2 Hn) as H.
  rewrite Hl in H. exact H.
Defined.

(** ** Fade stays between its two colors *)

(** X17: without overflow, each channel [FadeUpdate] computes lies between
    the channels of [Color1] and [Color2], and is the channel of [Color1]
    at index 0. *)
Theorem fade_channel_between (iw : int_width) (c1 c2 total index : Z) :
  fade_fits iw total ->
  0 <= c1 < 256 -> 0 <= c2 < 256 ->
  0 < total < 65536 -> 0 <= index < total ->
  Z.min c1 c2 <= fade_channel iw c1 c2 total index <= Z.max c1 c2 /\
  fade_channel iw c1 c2 total 0 = c1.
Proof.
  intros Hfit H1 H2 Ht Hi. split.
  - rewrite fade_channel_lerp by assumption. unfold lerp. split.
    + apply Z.div_le_lower_bound; [lia|].
      destruct (Z.min_spec c1 c2) as [[? ->]|[? ->]]; nia.
    + apply Z.div_le_upper_bound; [lia|].
      destruct (Z.max_spec c1 c2) as [[? ->]|[? ->]]; nia.
  - rewrite fade_channel_lerp by (try assumption; lia). unfold lerp.
    rewrite Z.sub_0_r, Z.mul_0_r, Z.add_0_r. apply Z.div_mul. lia.
Qed.

Lemma fade_channel_between_witness :
  Z.min 0 127 <= fade_channel Int16 0 127 50 49 <= Z.max 0 127 /\
  fade_channel Int16 0 127 50 0 = 0.
Proof.
  apply (fade_channel_between Int16 0 127 50 49); try lia.
  vm_compute. reflexivity.
Defined.

(** ** What holds all along a run of the sketch *)

Lemma steady_ext a b :
  Direction a = Direction b -> Index a = Index b -> TotalSteps a = TotalSteps b ->
  steady b -> steady a.
Proof. unfold steady. intros -> -> ->. trivial. Qed.

Lemma strip_ok_steady k s : strip_ok k s -> ActivePattern s = PULSE -> steady s.
Proof.
  intros (_ & _ & _ & _ & [N|(_ & _ & _ & _ & _ & S)]) P; [congruence | exact S].
Qed.

(** Only the step counter moved. *)
Lemma strip_ok_moved k s s' :
  strip_ok k s -> frozen s' = frozen s ->
  (ActivePattern s = PULSE -> steady s') -> strip_ok k s'.
Proof.
  intros (L & O & HP & HS & HA) F St.
  apply frozen_fields in F.
  destruct F as (FP & FS & FA & FI & _ & F1 & F2 & FT & FO).
  unfold strip_ok. rewrite FP, FS, FA, FI, F1, F2, FT, FO.
  repeat (split; [assumption|]).
  destruct HA as [N|(P & I & C1 & C2 & T & _)]; [left; exact N | right].
  repeat (split; [assumption|]). apply St, P.
Qed.

Lemma strip_ok_touch k t s : strip_ok k s -> strip_ok k (set_lastUpdate t s).
Proof. intros H. exact H. Qed.

Lemma station_color_half_bright k :
  let x := cell_of (station_color k) in
  (0 <= x.1.1 <= 127 /\ 0 <= x.1.2 <= 127) /\ 0 <= x.2 <= 127.
Proof. destruct k; vm_compute; repeat split; discriminate. Qed.

Lemma pulse_channel_half_bright iw c2 index :
  0 <= c2 <= 127 -> 0 <= index < 50 ->
  0 <= fade_channel iw 0 c2 50 index <= 127.
Proof.
  intros Hc Hi. rewrite fade_channel_lerp; try lia.
  - unfold lerp. split.
    + apply Z.div_pos; nia.
    + apply Z.div_le_upper_bound; nia.
  - destruct iw; simpl; [lia | exact I].
Qed.

(** The frame of a Pulse of the sketch. *)
Lemma strip_ok_pulse_frame iw k s :
  strip_ok k s -> ActivePattern s = PULSE -> strip_ok k (show (fade_frame iw s)).
Proof.
  intros H P. pose proof (strip_ok_steady k s H P) as (_ & HI & _).
  destruct H as (L & O & HP & HS & [N|(_ & I & C1 & C2 & T & S)]); [congruence|].
  assert (R : renders 2 s (show (fade_frame iw s))).
  { apply renders_show. unfold fade_frame. cbv zeta. apply renders_ColorSet. }
  pose proof (renders_fields _ _ _ R) as (FA & FD & FI & _ & FT & FX & FO & FS).
  pose proof (renders_colors _ _ _ R) as (F1 & F2).
  destruct R as [_ FL].
  assert (B : half_bright (pixels (show (fade_frame iw s)))).
  { rewrite pixels_show. unfold fade_frame. cbv zeta.
    rewrite pixels_ColorSet by (unfold numPixels; rewrite L; vm_compute; reflexivity).
    rewrite cell_of_Color. apply Forall_replicate.
    rewrite C1, C2, T.
    pose proof (station_color_half_bright k) as ((BR & BG) & BB).
    unfold cell_of in BR, BG, BB. simpl in BR, BG, BB.
    change (Red 0) with 0. change (Green 0) with 0. change (Blue 0) with 0.
    rewrite T in HI.
    pose proof (pulse_channel_half_bright iw _ _ BR HI).
    pose proof (pulse_channel_half_bright iw _ _ BG HI).
    pose proof (pulse_channel_half_bright iw _ _ BB HI).
    simpl. rewrite !u8_small by lia. lia. }
  unfold strip_ok. rewrite FL, FO, FS, FA, FI, F1, F2, FT.
  split; [exact L|]. split; [exact O|]. split; [exact B|].
  split; [apply Forall_app; split; [apply Forall_replicate, B | exact HS]|].
  right. repeat (split; [assumption|]).
  apply (steady_ext _ s FD FX FT S).
Qed.

(** A strip painted by one of the commands. *)
Lemma strip_ok_paint k c s :
  (let x := cell_of c in
   (0 <= x.1.1 <= 127 /\ 0 <= x.1.2 <= 127) /\ 0 <= x.2 <= 127) ->
  strip_ok k s -> strip_ok k (ColorSet c (set_ActivePattern NONE s)).
Proof.
  intros Hc (L & O & HP & HS & _).
  pose proof (renders_ColorSet c (set_ActivePattern NONE s)) as R.
  pose proof (renders_fields _ _ _ R) as (FA & _ & _ & _ & _ & _ & FO & FS).
  destruct R as [_ FL].
  assert (B : half_bright (pixels (ColorSet c (set_ActivePattern NONE s)))).
  { rewrite pixels_ColorSet
      by (unfold numPixels; simpl; rewrite L; vm_compute; reflexivity).
    apply Forall_replicate. exact Hc. }
  unfold strip_ok. rewrite FL, FO, FS, FA.
  split; [exact L|]. split; [exact O|]. split; [exact B|].
  split; [|left; reflexivity].
  apply Forall_app; split; [apply Forall_replicate, B | exact HS].
Qed.

(** A strip on which a command starts its Pulse. *)
Lemma strip_ok_Pulse k s :
  strip_ok k s ->
  strip_ok k (Pulse (Color 0 0 0) (station_color k) 50 10 FORWARD s).
Proof.
  intros (L & O & HP & HS & _).
  unfold strip_ok, Pulse. simpl.
  repeat (split; [assumption|]). right.
  split; [reflexivity|]. split; [reflexivity|]. split; [reflexivity|].
  split; [destruct k; reflexivity|]. split; [reflexivity|].
  unfold steady. simpl. change (u16 50) with 50.
  repeat split; try lia. discriminate.
Qed.

Lemma sketch_ok_put k s w : sketch_ok w -> strip_ok k s -> sketch_ok (put k s w).
Proof.
  intros H Hs j. rewrite get_put.
  destruct (decide (j = k)); [subst; exact Hs | apply H].
Qed.

Lemma sketch_ok_Increment k w :
  sketch_ok w -> ActivePattern (get k w) = PULSE -> sketch_ok (Increment k w).
Proof.
  intros H P j. apply (strip_ok_moved j (get j w)).
  - apply H.
  - apply frozen_Increment.
  - intros Pj. apply steady_Increment.
    + apply (strip_ok_steady k), P. apply H.
    + apply (strip_ok_steady j), Pj. apply H.
Qed.

Lemma sketch_ok_Update iw k t w : sketch_ok w -> sketch_ok (Update iw k t w).
Proof.
  intros H. destruct (Update_cases iw k t w) as [E|[[_ E]|[P E]]]; rewrite E.
  - exact H.
  - apply sketch_ok_put; [exact H | apply strip_ok_touch, H].
  - assert (Pk : ActivePattern (get k w) = PULSE).
    { destruct (H k) as (_ & _ & _ & _ & [N|(Pk & _)]); [congruence | exact Pk]. }
    rewrite Pk. apply sketch_ok_Increment.
    + apply sketch_ok_put; [exact H|].
      apply strip_ok_pulse_frame; [apply strip_ok_touch, H | exact Pk].
    + rewrite get_put_same.
      rewrite (proj1 (proj1 (frame_keeps_settings iw PULSE t (get k w)))).
      exact Pk.
Qed.

Lemma sketch_ok_on k f w :
  sketch_ok w -> (forall s, strip_ok k s -> strip_ok k (f s)) -> sketch_ok (on k f w).
Proof. intros H Hf. apply sketch_ok_put; [exact H | apply Hf, H]. Qed.

Lemma sketch_ok_read_from_serial c w :
  sketch_ok w -> sketch_ok (read_from_serial c w).
Proof.
  intros H. destruct c as [c|]; [|exact H]. unfold read_from_serial.
  repeat match goal with
  | |- context [Ascii.eqb c ?d] => destruct (Ascii.eqb c d)
  end;
  repeat first
    [ exact H
    | apply sketch_ok_on;
      [| first [ apply (strip_ok_Pulse S1) | apply (strip_ok_Pulse S2)
               | apply (strip_ok_Pulse S3)
               | intros s; apply strip_ok_paint; vm_compute;
                 repeat split; discriminate ] ] ].
Qed.

Lemma sketch_ok_loop iw t1 t2 t3 c w :
  sketch_ok w -> sketch_ok (loop iw t1 t2 t3 c w).
Proof.
  intros H. unfold loop.
  apply sketch_ok_read_from_serial. repeat apply sketch_ok_Update. exact H.
Qed.

Lemma sketch_ok_initial : sketch_ok initial_sketch.
Proof.
  intros k. unfold strip_ok.
  replace (get k initial_sketch) with (fresh_strip 300 (Some StripComplete))
    by (destruct k; reflexivity).
  unfold fresh_strip. cbn [pixels shown OnComplete ActivePattern].
  split; [apply length_replicate|]. split; [reflexivity|].
  split; [apply Forall_replicate; simpl; lia|].
  split; [constructor | left; reflexivity].
Qed.

Lemma sketch_ok_run iw its : forall w, sketch_ok w -> sketch_ok (run iw its w).
Proof.
  induction its as [|it its IH]; intros w H.
  - exact H.
  - change (run iw (it :: its) w)
      with (run iw its (loop iw it.1.1.1 it.1.1.2 it.1.2 it.2 w)).
    apply IH, sketch_ok_loop, H.
Qed.

(** X15: in every run of the sketch from its declarations, whatever bytes
    arrive and whatever the clock reads, each strip is idle or runs PULSE,
    keeps its 300 cells, and a strip that runs PULSE has the parameters of
    its command (50 steps, 10 ms, black to the station color) and an index
    inside [0, 50), never at 0 in reverse. *)
Theorem run_keeps_pulses_in_range (iw : int_width)
    (its : list (Z * Z * Z * option ascii)) (k : strip_id) :
  let s := get k (run iw its initial_sketch) in
  (ActivePattern s = NONE \/ ActivePattern s = PULSE) /\
  length (pixels s) = 300%nat /\
  (ActivePattern s = PULSE ->
   (Interval s = 10 /\ Color1 s = 0 /\ Color2 s = station_color k /\
    TotalSteps s = 50) /\
   0 <= Index s < TotalSteps s /\ (Direction s = REVERSE -> 1 <= Index s)).
Proof.
  intros s.
  destruct (sketch_ok_run iw its initial_sketch sketch_ok_initial k)
    as (L & _ & _ & _ & HA).
  fold s in L, HA. split; [|split; [exact L|]].
  - destruct HA as [N|(P & _)]; auto.
  - intros P. destruct HA as [N|(_ & I & C1 & C2 & T & (_ & HI & HR))]; [congruence|].
    auto 10.
Qed.

(** X16: in every run of the sketch from its declarations no channel of
    any cell ever exceeds 127, in the buffers and in every frame pushed to
    the strips. *)
Theorem run_is_half_bright (iw : int_width)
    (its : list (Z * Z * Z * option ascii)) (k : strip_id) :
  let s := get k (run iw its initial_sketch) in
  half_bright (pixels s) /\ Forall half_bright (shown s).
Proof.
  intros s.
  destruct (sketch_ok_run iw its initial_sketch sketch_ok_initial k)
    as (_ & _ & B & S & _).
  split; [exact B | exact S].
Qed.

(** X19: in every run of the sketch an elapsed update of a pulsing strip
    paints its 300 cells with the station color scaled by [Index / 50],
    exactly, whatever the width of [int]: the 50 steps of the commands keep
    the products of [FadeUpdate] below 2^16. *)
Theorem run_pulse_frames_exact (iw : int_width)
    (its : list (Z * Z * Z * option ascii)) (k : strip_id) (millis : Z) :
  let w := run iw its initial_sketch in
  let s := get k w in
  ActivePattern s = PULSE ->
  Interval s < u32 (millis - lastUpdate s) ->
  pixels (get k (Update iw k millis w))
  = replicate 300 (Red (station_color k) * Index s / 50,
                   Green (station_color k) * Index s / 50,
                   Blue (station_color k) * Index s / 50).
Proof.
  intros w s P He.
  destruct (sketch_ok_run iw its initial_sketch sketch_ok_initial k)
    as (L & _ & _ & _ & HA).
  fold w in L, HA. fold s in L, HA.
  destruct HA as [N|(_ & I & C1 & C2 & T & (_ & HI & _))]; [congruence|].
  apply elapsed_true in He.
  assert (E : Update iw k millis w = FadeUpdate iw k (on k (set_lastUpdate millis) w)).
  { unfold Update. unfold elapsed in He. fold s. rewrite He.
    rewrite get_on_same. fold s. simpl ActivePattern. rewrite P. reflexivity. }
  rewrite E.
  destruct (FadeUpdate_interpolates iw k (on k (set_lastUpdate millis) w))
    as [F _]; rewrite ?get_on_same; fold s; simpl.
  - rewrite T. destruct iw; simpl; [lia | exact Logic.I].
  - lia.
  - lia.
  - unfold numPixels. simpl. rewrite L. vm_compute. reflexivity.
  - rewrite F, get_on_same. fold s. simpl. rewrite L, C1, C2, T.
    unfold lerp. change (Red 0) with 0. change (Green 0) with 0.
    change (Blue 0) with 0. rewrite !Z.mul_0_l, !Z.add_0_l. reflexivity.
Qed.

Lemma run_pulse_frames_exact_witness :
  let w := run Int16 [(0, 0, 0, Some "1"%char); (11, 11, 11, None);
                      (22, 22, 22, None); (33, 33, 33, None)] initial_sketch in
  pixels (get S1 (Update Int16 S1 44 w)) = replicate 300 (7, 7, 0).
Proof.
  intros w.
  assert (P : ActivePattern (get S1 w) = PULSE) by (vm_compute; reflexivity).
  assert (He : Interval (get S1 w) < u32 (44 - lastUpdate (get S1 w)))
    by (vm_compute; reflexivity).
  subst w. rewrite (run_pulse_frames_exact Int16 _ S1 44 P He).
  vm_compute. reflexivity.
Defined.

(** ** Forward cycles and the rate of the frames *)

Lemma completed_Increment k w :
  completed (Increment k w) =
  (if at_boundary (get k w) then
     match OnComplete (get k w) with
     | Some _ => k :: completed w
     | None => completed w
     end
   else completed w).
Proof.
  rewrite Increment_next. cbv zeta. destruct (at_boundary (get k w)).
  - unfold call_OnComplete. rewrite get_on_same. simpl.
    destruct (OnComplete (get k w)) as [[]|].
    + simpl. rewrite completed_StripComplete_body. simpl.
      rewrite completed_on. reflexivity.
    + apply completed_on.
  - apply completed_on.
Qed.

(** X20: forward, the step counter counts modulo [TotalSteps] and the
    callback runs once per cycle: [n] calls of [Increment] on a strip that
    starts at index 0, runs forward and is not a Pulse leave the index at
    [n mod TotalSteps] and have called the callback [n / TotalSteps]
    times. *)
Theorem forward_cycles (k : strip_id) (w : sketch) (n : nat) :
  let s := get k w in
  Direction s = FORWARD -> is_PULSE (ActivePattern s) = false ->
  OnComplete s = Some StripComplete ->
  0 < TotalSteps s < 65536 -> Index s = 0 ->
  let w' := Nat.iter n (Increment k) w in
  Index (get k w') = Z.of_nat n mod TotalSteps s /\
  Direction (get k w') = FORWARD /\
  completed w'
  = replicate (Z.to_nat (Z.of_nat n / TotalSteps s)) k ++ completed w.
Proof.
  intros s D P O T I0 w'.
  assert (H : frozen (get k w') = frozen s /\
              Index (get k w') = Z.of_nat n mod TotalSteps s /\
              Direction (get k w') = FORWARD /\
              completed w'
              = replicate (Z.to_nat (Z.of_nat n / TotalSteps s)) k ++ completed w).
  { unfold w'. clear w'. induction n as [|n IH].
    - change (Nat.iter 0 (Increment k) w) with w. change (Z.of_nat 0) with 0.
      rewrite Z.mod_0_l, Z.div_0_l by lia. fold s. rewrite I0. auto.
    - change (Nat.iter (S n) (Increment k) w)
        with (Increment k (Nat.iter n (Increment k) w)).
      destruct IH as (F & HI & HD & HC).
      set (x := Nat.iter n (Increment k) w) in *.
      pose proof (frozen_fields _ _ F) as (_ & _ & FA & _ & _ & _ & _ & FT & FO).
      assert (Px : is_PULSE (ActivePattern (get k x)) = false) by (rewrite FA; exact P).
      pose proof (Z.div_mod (Z.of_nat n) (TotalSteps s) ltac:(lia)) as DM.
      pose proof (Z.mod_pos_bound (Z.of_nat n) (TotalSteps s) ltac:(lia)) as MB.
      assert (Q0 : 0 <= Z.of_nat n / TotalSteps s) by (apply Z.div_pos; lia).
      assert (B : at_boundary (get k x)
                  = (TotalSteps s <=? Z.of_nat n mod TotalSteps s + 1)).
      { unfold at_boundary. rewrite HD, FT, HI, u16_small by lia. reflexivity. }
      split; [rewrite frozen_Increment; exact F|].
      rewrite get_Increment_not_PULSE by exact Px.
      rewrite completed_Increment, B, FO, O, HC.
      unfold next_Index. rewrite B, HD, HI. simpl Index. simpl Direction.
      rewrite u16_small by lia. rewrite Nat2Z.inj_succ. unfold Z.succ.
      destruct (Z.leb_spec (TotalSteps s) (Z.of_nat n mod TotalSteps s + 1)).
      + assert (E : Z.of_nat n + 1
                    = TotalSteps s * (Z.of_nat n / TotalSteps s + 1) + 0) by lia.
        assert (R0 : 0 <= 0 < TotalSteps s) by lia.
        rewrite <- (Z.mod_unique_pos _ _ _ _ R0 E).
        rewrite <- (Z.div_unique_pos _ _ _ _ R0 E).
        rewrite Z2Nat.inj_add by lia. rewrite Nat.add_comm. auto.
      + assert (E : Z.of_nat n + 1
                    = TotalSteps s * (Z.of_nat n / TotalSteps s)
                      + (Z.of_nat n mod TotalSteps s + 1)) by lia.
        assert (R1 : 0 <= Z.of_nat n mod TotalSteps s + 1 < TotalSteps s) by lia.
        rewrite <- (Z.mod_unique_pos _ _ _ _ R1 E).
        rewrite <- (Z.div_unique_pos _ _ _ _ R1 E). auto. }
  destruct H as (_ & H). exact H.
Qed.

Lemma forward_cycles_witness :
  let w := on S3 (ColorWipe (Color 0 255 0) 20 FORWARD) initial_sketch in
  let w' := Nat.iter 700 (Increment S3) w in
  Index (get S3 w') = 100 /\ Direction (get S3 w') = FORWARD /\
  completed w' = [S3; S3].
Proof.
  intros w.
  assert (D : Direction (get S3 w) = FORWARD) by reflexivity.
  assert (P : is_PULSE (ActivePattern (get S3 w)) = false) by reflexivity.
  assert (O : OnComplete (get S3 w) = Some StripComplete) by reflexivity.
  assert (T : 0 < TotalSteps (get S3 w) < 65536) by (vm_compute; split; reflexivity).
  assert (I0 : Index (get S3 w) = 0) by reflexivity.
  pose proof (forward_cycles S3 w 700 D P O T I0) as H.
  replace (TotalSteps (get S3 w)) with 300 in H by (vm_compute; reflexivity).
  exact H.
Defined.

Lemma Interval_Update iw k millis w :
  Interval (get k (Update iw k millis w)) = Interval (get k w).
Proof.
  destruct (Update_cases iw k millis w) as [E|[[_ E]|[_ E]]]; rewrite E.
  - reflexivity.
  - rewrite get_on_same. reflexivity.
  - pose proof (frozen_fields _ _ (frozen_Increment k k
      (put k (show (frame_of iw (ActivePattern (get k w))
                      (set_lastUpdate millis (get k w)))) w)))
      as (_ & _ & _ & FI & _).
    rewrite FI, get_put_same.
    apply (frame_keeps_settings iw (ActivePattern (get k w)) millis (get k w)).
Qed.

(** X21: the frames of a strip are more than [Interval] milliseconds
    apart: after a call of [Update] that found the interval elapsed at
    clock [t], a call at a clock [t'] no more than [Interval] after [t]
    (modulo 2^32) changes nothing. *)
Theorem Update_rate_limit (iw : int_width) (k : strip_id) (t t' : Z) (w : sketch) :
  Interval (get k w) < u32 (t - lastUpdate (get k w)) ->
  u32 (t' - t) <= Interval (get k w) ->
  Update iw k t' (Update iw k t w) = Update iw k t w.
Proof.
  intros He Hw. apply Update_waiting. unfold elapsed.
  rewrite Interval_Update, lastUpdate_Update by (apply elapsed_true; exact He).
  apply Z.ltb_ge. exact Hw.
Qed.

Lemma Update_rate_limit_witness :
  let w := read_from_serial (Some "1"%char) initial_sketch in
  Update Int16 S1 21 (Update Int16 S1 11 w) = Update Int16 S1 11 w.
Proof.
  intros w.
  apply (Update_rate_limit Int16 S1 11 21 w); vm_compute; [reflexivity | discriminate].
Defined.
